(* ===== verification/_CoqProject ===== *)
-Q . S2P
Prelude.v
JsValue.v
Sql.v
SqlParse.v
Store.v
Pg.v
Normalize.v
Update.v
Case.v
Server.v
Statements.v
Abstract.v
Http.v
Concurrent.v
