(* ===== verification/Prelude.v ===== *)
(** * Verification of the SmartFridge ingestion server (src/index.js)

    The program is one Node.js file, [src/index.js]: an HTTP server that
    receives device telemetry and support cases and writes them with SQL
    into two Postgres tables, [salesforce.SmartFridge__c] (one row per
    device) and [salesforce.Case].

    ** Parts of the program and how they interact

    - the request listener (lines 20-58): accumulates the body chunks
      (['data']), dispatches on ['end'] and ends the response on
      ['aborted']; [response(code, data)] writes the head with JSON and
      no-cache headers, the body and the end;
    - the dispatcher (lines 34-53): switches on the request path and calls
      [sUpdate] or [sCase], or answers 400 "Unsupported request";
    - the request normaliser [promise] (lines 280-300): parses the body as
      JSON and hands the body, or else the URL query, to a handler;
    - the device upsert handler [sUpdate] (lines 71-158): validates
      [deviceId__c], connects, collects the changed columns, SELECTs the
      device, then UPDATEs it or INSERTs it with defaults;
    - the case handler [sCase] and its second half [sInsertCase]
      (lines 167-270): validates the case fields, connects, SELECTs the
      referenced device, auto-provisions it with default values if it is
      missing, then INSERTs the case ... RETURNING Id.
    Handlers talk to Postgres through callbacks ([pg.connect],
    [client.query], [done]); they settle a Promise the dispatcher turns
    into the HTTP response.  The SQL text is built with template literals
    ([`...${v}...`]), whose conversion of [v] to text may throw.

    ** Files, in dependency order

    - [Prelude] (this file): the [ingest_scope] notation scope, the
      [ingest] and [ingest_rw] hint databases, the tactics [invc] and
      [destruct_lets], and generic lemmas on association lists, strings
      and [find].
    - [JsValue] (Module [JsValue]): JavaScript values ([jsval]) as
      [JSON.parse] and [url.parse] produce them; property access [prop]
      with its TypeError on [null]/[undefined] (as [None]); [typeof];
      the keys of [for ... in] ([for_in_keys]); the conversion of a
      template substitution [to_js_string], [None] where ToString throws
      (an object with its own [toString] key, or an array holding one);
      [printable]; and the lemmas that index keys never name a field.
    - [Sql] (Module [Sql]): [TABLE_NAMES], the four columns, the SQL
      statements the handlers build ([sql]) and their exact text
      ([sql_text], [change_text], [join_comma]).
    - [SqlParse] (Module [SqlParse]): how the store reads that text: a
      lexer written as a per-character state machine ([lex_char], [lex],
      [lex_prefix]) and a parser of the four statement shapes
      ([parse_sql]); the round-trip theorem.
    - [Store] (Module [Store]): Postgres as seen by the handlers: the
      tables as lists of rows ([db]; no uniqueness constraint is declared,
      so a list is the faithful shape), the effect [exec] of each
      statement, the documented [default_row], the invariants
      [unique_ids] and [cases_ref] ([server_inv] for both), the lemmas
      that keep them, and the tactic [inv_leaf] that closes a handler's
      leaf.
    - [Pg] (Module [Pg]): the callback programs ([prog]: [PConnect] for
      [pg.connect], [PQuery] for [client.query], [PRelease] for [done()],
      [PSettle] for [resolve]/[reject]/a TypeError thrown in the Promise
      executor, [PThrow] for an exception thrown inside a [pg] callback,
      which escapes the Promise) and their interpreter [run] against the
      store and a fault oracle; the HTTP [response] the dispatcher writes
      from the first settlement; trace readers ([writes], [queries],
      [conn_returned], [count], [cost_ok]); [replay]; [response_shape],
      the shape spec sections 6 and 7 give every response, and [safe],
      what a program may still do (write only well-shaped responses,
      insert only cases for devices it has seen); the combinator
      [all_queries]; and the tactic [run_steps], which runs a handler
      against an unknown oracle.
    - [Normalize] (Module [Normalize]): [promise], the value it hands the
      handler ([submitted]), what [url.parse] yields as a query
      ([query_string_shaped]), and the interface between [promise] and the
      handlers: the class [Proceed] of what a [proceed] function
      guarantees the server (the invariants kept, at most [cost_ok] per
      run, [safe]).  [Update] and [Case] give the instances for
      [sUpdate_proceed] and [sCase_proceed]; the dispatcher's theorems in
      [Server] (C5, C34) and, through [Server.handle_safe], the response
      and concurrency theorems of [Http] and [Concurrent] are proved from
      the class alone.
    - [Update] (Module [Update]): [sUpdate] ([sUpdate_proceed],
      [sUpdate_changes], [change_lit], [sUpdate_insert]), the contract of
      spec 4.2 ([submitted_row], [well_typed]), which values must convert
      ([columns_print], [update_prints]) and its properties.
    - [Case] (Module [Case]): [sCase] ([sCase_proceed], [provision]) and
      [sInsertCase] with its template [case_insert]; a Section
      [ValidCase] holds the hypotheses of a submission that passes
      validation and whose device id converts, and its inner Section
      [Texts] those of a submission whose case texts convert too.
    - [Server] (Module [Server]): the dispatcher [handle]; the step
      relation [step] (one request, any failures) and [reachable]; the
      atomic step [step_prog] and the scheduler [run_sched] that
      interleaves several requests; [answerable], what a handler needs
      of its value to answer.
    - [Statements] (Module [Statements]): the statements the handlers
      send read back as themselves when the submitted values carry no
      quote ([update_fields_ok], [case_fields_ok]), and read back as
      another statement when one does (the injection theorem).
    - [Abstract] (Module [Abstract]): the device table as a [gmap] ([abs]),
      the contract's [upsert] and [ensure], and the refinement theorems.
    - [Http] (Module [Http]): the exchange of one request as a state
      ([exchange]: body received, calls on [res], store, oracle) and the
      three request handlers as its transitions ([on_data], [on_end],
      [on_aborted], [dispatch], [feed]); [respond] and [from_settle];
      [JSON.parse] and [url.parse] are the variables of the Section
      [Listener].
    - [Concurrent] (Module [Concurrent]): many connections over one store:
      the step relation [sstep] (accept, data, end, aborted, one atomic
      handler step with any failure) and its invariant [sinv] on the
      programs in flight ([Pg.safe]).

    ** What is modelled and how

    Every statement of [sUpdate], [sCase], [sInsertCase], [promise] and
    the path switch is a definition here, with each callback, each
    [done()] and each [resolve]/[reject] in the order the source calls
    them.  Each template literal converts its substitutions with
    [to_js_string]: a conversion that throws inside a [pg] callback is a
    [PThrow], after which nothing of the handler runs (no settlement, no
    [done()]).  The templates of lines 105, 119 and 125 (and 201 and 216)
    convert the same device id, and conversion is deterministic on the
    values [JSON.parse] builds, so the model converts it once and reuses
    the text.  JavaScript numbers are integers ([Z]) printed in decimal:
    fractions, exponents and the text JavaScript gives numbers of 1e21
    and above are not modelled.  [JSON.parse] is a library call, so the
    normaliser receives its outcome ([Some v], or [None] when it throws).
    The store keeps each column as the SQL literal the statement wrote
    (quoted text or a bare token); Postgres's type coercions are not
    modelled, and the store executes the statement as data, which is
    what the text means when no value contains a quote (C32, C33); C22
    shows what happens when one does.  Every connect and query may fail:
    the fault oracle, a list consumed one entry per operation, decides
    which, and theorems that quantify over it cover every failure
    pattern.  Within one request the callbacks run in sequence; between
    requests Node interleaves them at each store operation, which
    [run_sched] and [sstep] make explicit.

    ** Bounds and fuel

    [run] is structural on the callback tree (every handler is finite),
    so it needs no fuel; a request emits at most six events (connect,
    three statements, [done()], the settlement; C34).  The race theorem
    uses a ten-step schedule, exactly the five atomic steps (connect,
    SELECT, INSERT, done, resolve) of each request.  [sstep] interleaves
    at every atomic step, more finely than Node (which runs a whole
    callback between store operations), so its invariants hold of Node's
    schedules too.  An uncaught exception ends the Node process by
    default; [sstep] lets the other connections go on, which only adds
    behaviours, so its safety invariants hold of the real server.

    ** What the theorems show

    - [Update]: insert with the documented defaults on a new device and
      partial update on an existing one (C1, C2); all-or-nothing under
      store failures (C8); 400 without writes when the id or every field
      is missing (C13, C14); idempotence (C16); findings: a device id
      whose conversion throws leaves the request unanswered and the
      connection taken (C6), the connection leak on the "At least one
      field required" path (C18), and the INSERT writing [null] as
      'null' (C21).
    - [Case]: provisioning then case insert, two writes for an unknown
      device and one for a known one (C3, C4); partial effect when the
      case insert fails, and no case insert when provisioning fails (C9,
      C10); 400 without store access on missing fields (C15); the
      connection is released whenever the values convert (C17);
      findings: a [null] [Related_Fridge__r] gets no response (C19), a
      case sent as query parameters is always rejected (C20), and a
      case text whose conversion throws leaves a provisioned device, no
      case, no response and the connection taken (C26).
    - [Server]: uniqueness and referential integrity in every reachable
      state (C5), the check-then-act race under an interleaving (C7),
      body precedence (C23), unsupported paths (C24), every request whose
      values convert is answered (C25), and the cost of a request: at
      most six events, three statements, one connection and one
      [done()] (C34).
    - [Normalize]: the "JSON or query required" rejection is unreachable
      (C29, finding).
    - [Abstract]: [sUpdate] refines [upsert] and [sCase] refines [ensure]
      plus a case insert, on tables with one row per id (C11, C12).
    - [Http]: a complete request is handled once on the concatenation of
      its chunks and answered with exactly one well-shaped response or
      none (C27); an aborted request touches nothing and only ends the
      response (C28).
    - [Concurrent]: with any number of requests interleaved, every case
      references an existing device (C30) and every connection gets at
      most one well-shaped response (C31).
    - [SqlParse], [Statements]: the SQL text reads back as the statement
      for values without quotes (C32), every statement the server sends
      does when the submission's values have none (C33), and a quote in
      a value makes the store read another statement (C22, finding).

    ** Not modelled

    [server.listen], [PORT], [DATABASE_URL], [pg.defaults.ssl] and
    [console.log] are I/O and configuration with no decision in them.
    [JSON.parse], [JSON.stringify] and [url.parse] are library calls
    (their results are inputs, or the value written).  Postgres is
    modelled through [exec], the fault oracle and the reading of the
    statement text in [SqlParse]; its column coercions are not
    modelled.  Node's own behaviour is assumed, not modelled: ['aborted']
    is not emitted after ['end'] (true of Node 16 and later),
    [res.writeHead(undefined)] throws, and an exception thrown in a [pg]
    callback is not caught by [pg].

    ** Plan for later work

    A [Module Type] for the device table with the list and map
    implementations; the refinement lifted to whole request sequences;
    and the Postgres column coercions.
*)

From stdpp Require Export base list sets strings pretty.
From Stdlib Require Export ZArith Ascii.

Declare Scope ingest_scope.
Delimit Scope ingest_scope with ingest.

Create HintDb ingest discriminated.
Create Rewrite HintDb ingest_rw.

(** ** Association lists: lookup by the first binding of a key. *)

Fixpoint assoc {A} (k : string) (l : list (string * A)) : option A :=
  match l with
  | [] => None
  | (k', v) :: l' => if String.eqb k k' then Some v else assoc k l'
  end.

(** ** Tactics *)

Ltac invc H := inversion H; subst; clear H.

(** Split the [let '(x, y) := e in ...] that the interpreters produce. *)
Ltac destruct_lets :=
  repeat match goal with
  | |- context [let '(_, _) := ?e in _] => destruct e eqn:?
  | H : context [let '(_, _) := ?e in _] |- _ => destruct e eqn:?
  end.

Lemma assoc_cons_eq {A} k (v : A) l : assoc k ((k, v) :: l) = Some v.
Proof. simpl. by rewrite String.eqb_refl. Qed.

Lemma assoc_cons_ne {A} k k' (v : A) l :
  k ≠ k' → assoc k ((k', v) :: l) = assoc k l.
Proof. intros Hne. simpl. by rewrite (proj2 (String.eqb_neq k k') Hne). Qed.

Lemma assoc_app {A} k (l1 l2 : list (string * A)) :
  assoc k (l1 ++ l2) = match assoc k l1 with Some v => Some v | None => assoc k l2 end.
Proof.
  induction l1 as [|[k' v] l1 IH]; simpl; [done|].
  destruct (String.eqb k k'); done.
Qed.

Lemma assoc_In {A} k (v : A) l : assoc k l = Some v → In (k, v) l.
Proof.
  induction l as [|[k' v'] l IH]; simpl; [done|].
  destruct (String.eqb k k') eqn:E; [|auto].
  apply String.eqb_eq in E as ->. intros [= ->]. auto.
Qed.

Lemma find_none_forall {A} (f : A → bool) (l : list A) :
  (∀ x, x ∈ l → f x = false) → find f l = None.
Proof.
  induction l as [|x l IH]; intros Hl; simpl; [done|].
  rewrite Hl by set_solver. apply IH. intros y Hy. apply Hl. set_solver.
Qed.

(** ** Strings: [+:+] is a monoid with unit [""]. *)

Lemma string_app_cons c (s t : string) : String c s +:+ t = String c (s +:+ t).
Proof. reflexivity. Qed.

Lemma string_app_nil_r (s : string) : s +:+ "" = s.
Proof. induction s as [|c s IH]; [done|]. by rewrite string_app_cons, IH. Qed.

Lemma string_app_assoc (s1 s2 s3 : string) : s1 +:+ (s2 +:+ s3) = (s1 +:+ s2) +:+ s3.
Proof. induction s1 as [|c s1 IH]; [done|]. by rewrite !string_app_cons, IH. Qed.

#[export] Hint Rewrite @assoc_cons_eq @assoc_app string_app_nil_r : ingest_rw.
#[export] Hint Resolve assoc_In : ingest.
