(* ===== verification/JsValue.v ===== *)
(** JavaScript values as the handlers of src/index.js see them: the values
    [JSON.parse] and [url.parse(_, true).query] produce, property access
    [v[k]] (a TypeError on [null] and [undefined]), [typeof], the keys a
    [for (let key in v)] loop visits, and the string a template literal
    [`${v}`] splices in. *)

From S2P Require Import Prelude.

#[local] Set Warnings "-register-all".

Module JsValue.

Inductive jsval :=
| JUndefined
| JNull
| JBool (b : bool)
| JNumber (n : Z)
| JString (s : string)
| JArray (xs : list jsval)
| JObject (props : list (string * jsval)).

(** [typeof v]. *)
Definition typeof (v : jsval) : string :=
  match v with
  | JUndefined => "undefined"
  | JNull | JArray _ | JObject _ => "object"
  | JBool _ => "boolean"
  | JNumber _ => "number"
  | JString _ => "string"
  end.

(** The canonical index key [String(i)] of an array or string element. *)
Definition index_key (i : nat) : string := pretty (N.of_nat i).

Definition index_of_key (k : string) (len : nat) : option nat :=
  find (λ i, String.eqb (index_key i) k) (seq 0 len).

Fixpoint string_chars (s : string) : list string :=
  match s with
  | EmptyString => []
  | String c s' => String c EmptyString :: string_chars s'
  end.

(** [v[k]]: [None] is the TypeError thrown on [undefined] and [null];
    a missing property is [Some JUndefined].  Objects are the ones
    [JSON.parse] builds (own properties only; lookup takes the first
    binding, and [JSON.parse] never repeats a key). *)
Definition prop (v : jsval) (k : string) : option jsval :=
  match v with
  | JUndefined | JNull => None
  | JObject ps => Some (default JUndefined (assoc k ps))
  | JArray xs =>
      if String.eqb k "length" then Some (JNumber (Z.of_nat (length xs)))
      else Some (default JUndefined (i ← index_of_key k (length xs); xs !! i))
  | JString s =>
      if String.eqb k "length" then Some (JNumber (Z.of_nat (length (string_chars s))))
      else Some (default JUndefined
                   (i ← index_of_key k (length (string_chars s));
                    JString <$> string_chars s !! i))
  | JBool _ | JNumber _ => Some JUndefined
  end.

(** The keys [for (let key in v)] visits, in order. *)
Definition for_in_keys (v : jsval) : list string :=
  match v with
  | JObject ps => map fst ps
  | JArray xs => map index_key (seq 0 (length xs))
  | JString s => map index_key (seq 0 (length (string_chars s)))
  | _ => []
  end.

Definition is_undefined (v : jsval) : bool :=
  match v with JUndefined => true | _ => false end.

Definition is_null (v : jsval) : bool :=
  match v with JNull => true | _ => false end.

(** [`${v}`]: ToString, [None] when it throws a TypeError.  An object
    [JSON.parse] builds converts through [Object.prototype.toString] to
    "[object Object]", unless it has an own property [toString]: that
    property is never callable, the inherited [valueOf] returns the object
    itself, and ToPrimitive throws.  An array joins its elements with ","
    ([Array.prototype.join]), writing [null] and [undefined] elements as
    the empty string; it throws when an element does. *)
Fixpoint to_js_string (v : jsval) : option string :=
  match v with
  | JUndefined => Some "undefined"
  | JNull => Some "null"
  | JBool true => Some "true"
  | JBool false => Some "false"
  | JNumber n => Some (pretty n)
  | JString s => Some s
  | JArray xs =>
      let elem (x : jsval) : option string :=
        match x with JUndefined | JNull => Some "" | _ => to_js_string x end in
      (fix join (xs : list jsval) : option string :=
         match xs with
         | [] => Some ""
         | [x] => elem x
         | x :: xs' => s ← elem x; t ← join xs'; Some (s +:+ "," +:+ t)
         end) xs
  | JObject ps =>
      if existsb (λ kv, String.eqb kv.1 "toString") ps then None else Some "[object Object]"
  end.

(** [`${v}`] does not throw. *)
Definition printable (v : jsval) : bool :=
  match to_js_string v with Some _ => true | None => false end.

(** [v[k]] on a value whose first property access succeeded (the handlers
    read [query[...]] again after [query['deviceId__c']] did not throw). *)
Definition get (v : jsval) (k : string) : jsval := default JUndefined (prop v k).

(** The object literals of the responses. *)
Definition status_obj (state message : string) : jsval :=
  JObject [("state", JString state); ("message", JString message)].

(** ** Keys that are not array indices *)

Definition is_digit (c : ascii) : bool :=
  (48 <=? Ascii.nat_of_ascii c) && (Ascii.nat_of_ascii c <=? 57).

Definition head_digit (s : string) : Prop :=
  match s with String c _ => is_digit c = true | EmptyString => False end.

Lemma pretty_N_char_digit x : is_digit (pretty_N_char x) = true.
Proof. unfold pretty_N_char. by repeat case_match. Qed.

Lemma pretty_N_go_head x s :
  (s ≠ "" → head_digit s) → s ≠ "" ∨ (0 < x)%N → head_digit (pretty_N_go x s).
Proof.
  revert s. induction (N.lt_wf_0 x) as [x _ IH]; intros s Hs Hne.
  destruct (decide (x = 0)%N) as [->|Hx].
  - rewrite pretty_N_go_0. destruct Hne as [Hne|Hne]; [by apply Hs|lia].
  - rewrite pretty_N_go_step by lia.
    apply IH; [apply N.div_lt; lia| |by left].
    intros _. apply pretty_N_char_digit.
Qed.

(** Every index key starts with a digit. *)
Lemma index_key_head i : head_digit (index_key i).
Proof.
  unfold index_key, pretty, pretty_N. case_decide; [done|].
  apply pretty_N_go_head; [done|]. right. lia.
Qed.

Lemma index_of_key_None k len : ¬ head_digit k → index_of_key k len = None.
Proof.
  intros Hk. unfold index_of_key. apply find_none_forall.
  intros i _. apply String.eqb_neq. intros <-. apply Hk, index_key_head.
Qed.

(** A key that is neither an index nor ["length"] names no property of a
    string or an array. *)
Lemma prop_string_array_field v k :
  (∃ s, v = JString s) ∨ (∃ xs, v = JArray xs) →
  ¬ head_digit k → k ≠ "length" → prop v k = Some JUndefined.
Proof.
  intros Hv Hk Hlen.
  assert (String.eqb k "length" = false) as Hl by (apply String.eqb_neq; done).
  destruct Hv as [[s ->]|[xs ->]]; simpl; rewrite Hl, index_of_key_None by done; done.
Qed.

(** A key that is neither an index nor ["length"] names no property of an
    array or a string, and a defined property of any value is one of the
    keys [for ... in] visits. *)
Lemma prop_in_keys v k w :
  ¬ head_digit k → k ≠ "length" → prop v k = Some w → w ≠ JUndefined →
  k ∈ for_in_keys v.
Proof.
  intros Hk Hlen Hp Hw.
  assert (String.eqb k "length" = false) as Hl by (apply String.eqb_neq; done).
  destruct v as [| | | | s | xs | ps]; simpl in Hp; try congruence.
  - rewrite Hl, index_of_key_None in Hp by done. simpl in Hp. congruence.
  - rewrite Hl, index_of_key_None in Hp by done. simpl in Hp. congruence.
  - destruct (assoc k ps) as [w'|] eqn:E; simpl in Hp; [|congruence].
    apply list_elem_of_In, in_map_iff. exists (k, w'). split; [done|].
    by apply assoc_In.
Qed.

Lemma printable_Some v : printable v = true ↔ ∃ s, to_js_string v = Some s.
Proof. unfold printable. destruct (to_js_string v); naive_solver. Qed.

(** [v[k]] throws only on [undefined] and [null]. *)
Lemma prop_None v k : prop v k = None → v = JUndefined ∨ v = JNull.
Proof. destruct v; simpl; try case_match; naive_solver. Qed.

End JsValue.
