(* ===== verification/Sql.v ===== *)
(** The SQL statements src/index.js sends to Postgres.  [sql] is the
    statement as data; [sql_text] is the string the template literals
    build from it, character for character (lines 100-101, 105, 119, 125,
    201, 216 and 249).  Values are spliced in without escaping, which is
    why two different statements can have the same text. *)

From S2P Require Import Prelude.

Module Sql.

(** [TABLE_NAMES] (lines 13-16). *)
Definition table_fridge : string := "salesforce.SmartFridge__c".
Definition table_case : string := "salesforce.Case".

(** The four mutable columns of the fridge table: the list
    ['door__c', 'temperature__c', 'humidity__c', 'ts__c'] of line 97. *)
Inductive column := door__c | temperature__c | humidity__c | ts__c.

#[export] Instance column_eq_dec : EqDecision column.
Proof. solve_decision. Defined.

Definition column_name (c : column) : string :=
  match c with
  | door__c => "door__c"
  | temperature__c => "temperature__c"
  | humidity__c => "humidity__c"
  | ts__c => "ts__c"
  end.

Definition columns : list column := [door__c; temperature__c; humidity__c; ts__c].

(** [[...].includes(key)] of line 97, returning the column it names. *)
Definition column_of_key (k : string) : option column :=
  find (λ c, String.eqb (column_name c) k) columns.

(** A value as it appears in the statement: a bare token ([${value}]) or
    a quoted string (['${value}']). *)
Inductive sql_lit := Bare (text : string) | Quoted (text : string).

#[export] Instance sql_lit_eq_dec : EqDecision sql_lit.
Proof. solve_decision. Defined.

Inductive sql :=
(** [SELECT deviceId__c FROM fridge WHERE deviceId__c='id'] (lines 105, 201) *)
| SelectFridge (deviceId : string)
(** [UPDATE fridge SET changes WHERE deviceId__c='id'] (line 119) *)
| UpdateFridge (changes : list (column * sql_lit)) (deviceId : string)
(** [INSERT INTO fridge (...) VALUES ('id', 'door', temp, hum, 'ts')]
    (lines 125, 216): door and ts quoted, temperature and humidity bare. *)
| InsertFridge (deviceId door temperature humidity ts : string)
(** [INSERT INTO case (...) VALUES ('s', 'd', 'id') RETURNING Id]
    (line 249) *)
| InsertCase (subject description deviceId : string).

Definition quote (s : string) : string := "'" +:+ s +:+ "'".

(** One element of [changes] (lines 100-101): [key=value] or [key='value']. *)
Definition change_text (ch : column * sql_lit) : string :=
  match ch.2 with
  | Bare v => column_name ch.1 +:+ "=" +:+ v
  | Quoted v => column_name ch.1 +:+ "=" +:+ quote v
  end.

(** [changes.join(',')]. *)
Fixpoint join_comma (l : list string) : string :=
  match l with
  | [] => ""
  | [s] => s
  | s :: l' => s +:+ "," +:+ join_comma l'
  end.

Definition sql_text (q : sql) : string :=
  match q with
  | SelectFridge id =>
      "SELECT deviceId__c FROM " +:+ table_fridge +:+ " WHERE deviceId__c=" +:+ quote id
  | UpdateFridge changes id =>
      "UPDATE " +:+ table_fridge +:+ " SET " +:+ join_comma (map change_text changes)
        +:+ " WHERE deviceId__c=" +:+ quote id
  | InsertFridge id door temp hum ts =>
      "INSERT INTO " +:+ table_fridge
        +:+ " (deviceId__c, door__c, temperature__c, humidity__c, ts__c) VALUES ("
        +:+ quote id +:+ ", " +:+ quote door +:+ ", " +:+ temp +:+ ", " +:+ hum
        +:+ ", " +:+ quote ts +:+ ")"
  | InsertCase subj descr id =>
      "INSERT INTO " +:+ table_case
        +:+ " (Subject, Description, Related_Fridge__r__deviceId__c) VALUES ("
        +:+ quote subj +:+ ", " +:+ quote descr +:+ ", " +:+ quote id +:+ ") RETURNING Id"
  end.

(** Statements that write, as opposed to the SELECT. *)
Definition is_write (q : sql) : bool :=
  match q with SelectFridge _ => false | _ => true end.

(** [column_of_key] reads back [column_name]. *)

Lemma column_of_key_Some k c : column_of_key k = Some c → column_name c = k.
Proof.
  unfold column_of_key. intros H. apply find_some in H as [_ H].
  by apply String.eqb_eq.
Qed.

Lemma column_of_key_name c : column_of_key (column_name c) = Some c.
Proof. by destruct c. Qed.

End Sql.
