(* ===== verification/SqlParse.v ===== *)
(** How the store reads the statements of [Sql]: a lexer for the SQL text
    ([lex]: words, quoted literals and the symbols [, ( ) =]) and a parser
    for the four statement shapes src/index.js builds ([parse_sql]).  The
    round-trip theorem says that the text [sql_text q] reads back as [q]
    when every value is a literal that cannot end early: quoted values
    with no quote in them, bare values made of word characters.  That is
    the condition under which [Store.exec q] is what the text means; the
    injection theorem [Statements.sUpdate_sql_injection] shows a text that
    reads back as another statement when a value holds a quote. *)

From S2P Require Import Prelude Sql.
Import Sql.

Module SqlParse.

Inductive token :=
| TWord (w : string)   (** a maximal run of word characters *)
| TLit (v : string)    (** ['...'] *)
| TSym (c : ascii).    (** one of [, ( ) =] *)

#[export] Instance token_eq_dec : EqDecision token.
Proof. solve_decision. Defined.

Definition is_sym (c : ascii) : bool :=
  Ascii.eqb c "," || Ascii.eqb c "(" || Ascii.eqb c ")" || Ascii.eqb c "=".

Definition is_quote (c : ascii) : bool := Ascii.eqb c "'".
Definition is_space (c : ascii) : bool := Ascii.eqb c " ".

Definition word_char (c : ascii) : bool := negb (is_sym c || is_quote c || is_space c).

Fixpoint all_chars (f : ascii → bool) (s : string) : bool :=
  match s with EmptyString => true | String c s' => f c && all_chars f s' end.

(** ** The lexer *)

Inductive lmode := LNone | LWord (acc : string) | LQuote (acc : string).

Definition flush (m : lmode) : list token :=
  match m with LWord acc => [TWord acc] | _ => [] end.

(** One character: the tokens it completes and the next mode. *)
Definition lex_char (m : lmode) (c : ascii) : list token * lmode :=
  match m with
  | LQuote acc =>
      if is_quote c then ([TLit acc], LNone) else ([], LQuote (acc +:+ String c EmptyString))
  | _ =>
      if is_quote c then (flush m, LQuote "")
      else if is_space c then (flush m, LNone)
      else if is_sym c then (flush m ++ [TSym c], LNone)
      else match m with
           | LWord acc => ([], LWord (acc +:+ String c EmptyString))
           | _ => ([], LWord (String c EmptyString))
           end
  end.

(** The whole text; [None] when a quote is left open. *)
Fixpoint lex (m : lmode) (s : string) : option (list token) :=
  match s with
  | EmptyString => match m with LQuote _ => None | _ => Some (flush m) end
  | String c s' => let '(ts, m') := lex_char m c in (ts ++.) <$> lex m' s'
  end.

(** A prefix of the text: the tokens it completes and the mode after it. *)
Fixpoint lex_prefix (m : lmode) (s : string) : list token * lmode :=
  match s with
  | EmptyString => ([], m)
  | String c s' =>
      let '(ts, m') := lex_char m c in
      let '(ts', m'') := lex_prefix m' s' in (ts ++ ts', m'')
  end.

(** ** The parser *)

Definition words (ws : list string) : list token := TWord <$> ws.

(** Strip a fixed prefix of tokens. *)
Fixpoint expect (pre ts : list token) : option (list token) :=
  match pre, ts with
  | [], _ => Some ts
  | t :: pre', t' :: ts' => if decide (t = t') then expect pre' ts' else None
  | _ :: _, [] => None
  end.

Definition value (t : token) : option sql_lit :=
  match t with TLit v => Some (Quoted v) | TWord v => Some (Bare v) | TSym _ => None end.

(** [col=value, col=value, ...]. *)
Fixpoint p_changes (ts : list token) : option (list (column * sql_lit) * list token) :=
  match ts with
  | TWord name :: TSym eq :: v :: rest =>
      if Ascii.eqb eq "=" then
        col ← column_of_key name; l ← value v;
        match rest with
        | TSym c :: rest' =>
            if Ascii.eqb c "," then '(chs, r) ← p_changes rest'; Some ((col, l) :: chs, r)
            else Some ([(col, l)], rest)
        | _ => Some ([(col, l)], rest)
        end
      else None
  | _ => None
  end.

Definition select_head : list token :=
  words ["SELECT"; "deviceId__c"; "FROM"; table_fridge; "WHERE"; "deviceId__c"] ++ [TSym "="].

Definition where_id : list token := words ["WHERE"; "deviceId__c"] ++ [TSym "="].

Definition insert_fridge_head : list token :=
  words ["INSERT"; "INTO"; table_fridge] ++
  [TSym "("; TWord "deviceId__c"; TSym ","; TWord "door__c"; TSym ","; TWord "temperature__c";
   TSym ","; TWord "humidity__c"; TSym ","; TWord "ts__c"; TSym ")"; TWord "VALUES"; TSym "("].

Definition insert_case_head : list token :=
  words ["INSERT"; "INTO"; table_case] ++
  [TSym "("; TWord "Subject"; TSym ","; TWord "Description"; TSym ",";
   TWord "Related_Fridge__r__deviceId__c"; TSym ")"; TWord "VALUES"; TSym "("].

Definition parse_tokens (ts : list token) : option sql :=
  match expect select_head ts with
  | Some [TLit id] => Some (SelectFridge id)
  | _ =>
  match expect (words ["UPDATE"; table_fridge; "SET"]) ts with
  | Some rest =>
      '(chs, rest') ← p_changes rest;
      match expect where_id rest' with Some [TLit id] => Some (UpdateFridge chs id) | _ => None end
  | None =>
  match expect insert_fridge_head ts with
  | Some [TLit id; TSym c1; TLit dr; TSym c2; TWord tp; TSym c3; TWord hm; TSym c4; TLit t; TSym c5] =>
      if bool_decide ([c1; c2; c3; c4; c5] = [","; ","; ","; ","; ")"]%char)
      then Some (InsertFridge id dr tp hm t) else None
  | _ =>
  match expect insert_case_head ts with
  | Some [TLit s; TSym c1; TLit de; TSym c2; TLit id; TSym c3; TWord r; TWord i] =>
      if bool_decide ([c1; c2; c3] = [","; ","; ")"]%char ∧ r = "RETURNING" ∧ i = "Id")
      then Some (InsertCase s de id) else None
  | _ => None
  end end end end.

Definition parse_sql (s : string) : option sql := lex LNone s ≫= parse_tokens.

(** ** Which statements read back *)

Definition quote_free (s : string) : bool := all_chars (λ c, negb (is_quote c)) s.
Definition bare_ok (s : string) : bool := bool_decide (s ≠ "") && all_chars word_char s.

Definition lit_ok (l : sql_lit) : bool :=
  match l with Bare v => bare_ok v | Quoted v => quote_free v end.

Definition sql_ok (q : sql) : bool :=
  match q with
  | SelectFridge id => quote_free id
  | UpdateFridge chs id => bool_decide (chs ≠ []) && forallb (λ ch, lit_ok ch.2) chs && quote_free id
  | InsertFridge id dr tp hm t =>
      quote_free id && quote_free dr && bare_ok tp && bare_ok hm && quote_free t
  | InsertCase s de id => quote_free s && quote_free de && quote_free id
  end.

(** The tokens of the changes of an UPDATE, as the text
    [changes.join(',')] lexes. *)
Definition lit_token (l : sql_lit) : token :=
  match l with Bare v => TWord v | Quoted v => TLit v end.

Definition change_tokens (ch : column * sql_lit) : list token :=
  [TWord (column_name ch.1); TSym "="; lit_token ch.2].

Fixpoint changes_tokens (chs : list (column * sql_lit)) : list token :=
  match chs with
  | [] => []
  | [ch] => change_tokens ch
  | ch :: chs' => change_tokens ch ++ TSym "," :: changes_tokens chs'
  end.

(** ** Lemmas on the lexer *)

(** [+:+] computes on a first argument that is a literal. *)
#[local] Arguments String.append : simpl nomatch.

Lemma word_char_spec c :
  word_char c = true → is_quote c = false ∧ is_space c = false ∧ is_sym c = false.
Proof. unfold word_char. destruct (is_sym c), (is_quote c), (is_space c); done. Qed.

Lemma lex_app m p rest :
  lex m (p +:+ rest) = let '(ts, m') := lex_prefix m p in (ts ++.) <$> lex m' rest.
Proof.
  revert m. induction p as [|c p IH]; intros m; simpl.
  - by destruct (lex m rest).
  - destruct (lex_char m c) as [ts m']. rewrite IH.
    destruct (lex_prefix m' p) as [ts' m'']. destruct (lex m'' rest); simpl; [|done].
    by rewrite app_assoc.
Qed.

(** A quoted value with no quote in it stays inside the literal. *)
Lemma lex_quote acc v :
  quote_free v = true → lex_prefix (LQuote acc) v = ([], LQuote (acc +:+ v)).
Proof.
  revert acc. induction v as [|c v IH]; intros acc Hv; simpl in *.
  - by rewrite string_app_nil_r.
  - apply andb_prop in Hv as [Hc Hv]. apply negb_true_iff in Hc. rewrite Hc, IH by done.
    by rewrite <- string_app_assoc.
Qed.

Lemma lex_word acc w :
  all_chars word_char w = true → lex_prefix (LWord acc) w = ([], LWord (acc +:+ w)).
Proof.
  revert acc. induction w as [|c w IH]; intros acc Hw; simpl in *.
  - by rewrite string_app_nil_r.
  - apply andb_prop in Hw as [Hc Hw]. destruct (word_char_spec c Hc) as (-> & -> & ->).
    rewrite IH by done. by rewrite <- string_app_assoc.
Qed.

(** A bare value made of word characters is one word. *)
Lemma lex_bare w : bare_ok w = true → lex_prefix LNone w = ([], LWord w).
Proof.
  unfold bare_ok. intros [Hne Hw]%andb_prop. apply bool_decide_eq_true in Hne.
  destruct w as [|c w]; [done|]. simpl in *. apply andb_prop in Hw as [Hc Hw].
  destruct (word_char_spec c Hc) as (-> & -> & ->). by rewrite lex_word.
Qed.

Lemma lex_column col : lex_prefix LNone (column_name col) = ([], LWord (column_name col)).
Proof. apply lex_bare. by destruct col. Qed.

Lemma lex_prefix_app m p q :
  lex_prefix m (p +:+ q) =
    let '(ts, m') := lex_prefix m p in let '(ts', m'') := lex_prefix m' q in (ts ++ ts', m'').
Proof.
  revert m. induction p as [|c p IH]; intros m; simpl.
  - by destruct (lex_prefix m q).
  - destruct (lex_char m c) as [ts m']. rewrite IH.
    destruct (lex_prefix m' p) as [ts' m'']. destruct (lex_prefix m'' q).
    by rewrite app_assoc.
Qed.

(** Lex a text made of literal pieces and values: literal pieces by
    computation, values with the lemmas above. *)
Ltac lex_run :=
  repeat first
    [ rewrite lex_quote by done | rewrite lex_bare by done | rewrite lex_column
    | progress cbn [lex lex_prefix lex_char is_quote is_space is_sym flush Ascii.eqb
                    Bool.eqb andb orb negb app fmap option_fmap option_map String.append]
    | rewrite lex_app | rewrite lex_prefix_app ].

(** One change [col=value] followed by a separator. *)
Lemma lex_change ch c rest :
  lit_ok ch.2 = true → (c = " " ∨ c = ",")%char →
  lex LNone (change_text ch +:+ String c rest) = (change_tokens ch ++.) <$> lex LNone (String c rest).
Proof.
  intros Hl [->| ->]; destruct ch as [col [v|v]]; unfold change_text, change_tokens, quote;
    simpl in Hl; cbn [fst snd lit_token]; rewrite <- ?string_app_assoc; lex_run;
    by destruct (lex LNone rest).
Qed.

(** The changes of an UPDATE, followed by the WHERE clause. *)
Lemma lex_changes chs rest :
  chs ≠ [] → forallb (λ ch, lit_ok ch.2) chs = true →
  lex LNone (join_comma (map change_text chs) +:+ String " " rest) =
    (changes_tokens chs ++.) <$> lex LNone rest.
Proof.
  induction chs as [|ch chs IH]; intros Hne Hok; [done|]. simpl in Hok.
  apply andb_prop in Hok as [Hch Hok].
  destruct chs as [|ch2 chs].
  - simpl. rewrite lex_change by auto. simpl. by destruct (lex LNone rest).
  - change (join_comma (map change_text (ch :: ch2 :: chs)))
      with (change_text ch +:+ "," +:+ join_comma (map change_text (ch2 :: chs))).
    set (J := join_comma (map change_text (ch2 :: chs))).
    rewrite <- !string_app_assoc. simpl. rewrite lex_change by auto. simpl.
    subst J. rewrite IH by done. destruct (lex LNone rest); simpl; [|done].
    simpl. by rewrite <- ?app_assoc.
Qed.

(** ** Lemmas on the parser *)

Lemma p_changes_tokens chs w rest :
  chs ≠ [] → p_changes (changes_tokens chs ++ TWord w :: rest) = Some (chs, TWord w :: rest).
Proof.
  induction chs as [|[col l] chs IH]; intros Hne; [done|].
  destruct chs as [|ch2 chs].
  - simpl. rewrite column_of_key_name. by destruct l.
  - change (changes_tokens ((col, l) :: ch2 :: chs))
      with (change_tokens (col, l) ++ TSym "," :: changes_tokens (ch2 :: chs)).
    set (T := changes_tokens (ch2 :: chs)). simpl. subst T.
    rewrite column_of_key_name, IH by done. by destruct l.
Qed.

Lemma expect_app pre ts : expect pre (pre ++ ts) = Some ts.
Proof. induction pre as [|t pre IH]; simpl; [done|]. by rewrite decide_True. Qed.

Lemma parse_update chs id :
  chs ≠ [] →
  parse_tokens (words ["UPDATE"; table_fridge; "SET"] ++ changes_tokens chs ++ where_id ++ [TLit id]) =
    Some (UpdateFridge chs id).
Proof.
  intros Hne. unfold parse_tokens.
  change (expect select_head _) with (@None (list token)). rewrite expect_app.
  change (where_id ++ [TLit id]) with (TWord "WHERE" :: [TWord "deviceId__c"; TSym "="; TLit id]).
  rewrite p_changes_tokens by done. cbn [mbind option_bind].
  change (TWord "WHERE" :: [TWord "deviceId__c"; TSym "="; TLit id]) with (where_id ++ [TLit id]).
  by rewrite expect_app.
Qed.

(** ** Round trip *)

(** An UPDATE reads back when its changes do and its id has no quote. *)
Lemma parse_update_text chs id :
  chs ≠ [] → forallb (λ ch, lit_ok ch.2) chs = true → quote_free id = true →
  parse_sql (sql_text (UpdateFridge chs id)) = Some (UpdateFridge chs id).
Proof.
  intros Hne Hchs Hid. unfold parse_sql, sql_text, quote, table_fridge.
  rewrite <- ?string_app_assoc. set (J := join_comma (map change_text chs)).
  cbn [lex lex_char is_quote is_space is_sym flush Ascii.eqb Bool.eqb andb orb negb app
       fmap option_fmap option_map String.append].
  subst J. rewrite lex_changes by done. lex_run. by apply parse_update.
Qed.

(** C32: the text src/index.js builds for a statement reads back as that
    statement whenever its values cannot end early (quoted values without
    a quote, bare values of word characters, at least one change in an
    UPDATE): under that condition the store executes exactly the statement
    the handler meant. *)
Theorem parse_sql_text q : sql_ok q = true → parse_sql (sql_text q) = Some q.
Proof.
  destruct q as [id|chs id|id dr tp hm t|sj de id]; intros Hok; simpl in Hok;
    repeat match goal with H : (_ && _) = true |- _ => apply andb_prop in H as [? ?] end;
    [|by apply parse_update_text; [eapply bool_decide_eq_true_1|..]| |];
    unfold parse_sql, sql_text, quote, table_fridge, table_case; rewrite <- ?string_app_assoc;
    lex_run; reflexivity.
Qed.

Lemma parse_sql_text_witness :
  parse_sql (sql_text (UpdateFridge [(door__c, Quoted "open"); (temperature__c, Bare "25")] "D1")) =
    Some (UpdateFridge [(door__c, Quoted "open"); (temperature__c, Bare "25")] "D1").
Proof. apply parse_sql_text. vm_compute. reflexivity. Defined.

End SqlParse.
