(* ===== verification/Store.v ===== *)
(** The Postgres side of src/index.js: the fridge table and the case table
    as lists of rows (neither table declares a uniqueness constraint, so a
    list, which can hold two rows with the same [deviceId__c], is the
    faithful shape), and the effect [exec] of each statement of [Sql] on
    them, with the rows it returns to the callback.  Whether a statement
    fails is decided outside, by the fault oracle of [Pg]. *)

From S2P Require Import Prelude JsValue Sql.
Import JsValue Sql.

Module Store.

Record fridge_row := mk_fridge_row {
  deviceId : string;
  door : sql_lit;
  temperature : sql_lit;
  humidity : sql_lit;
  ts : sql_lit
}.

Record case_row := mk_case_row {
  case_id : nat;
  subject : string;
  description : string;
  related_device : string
}.

Record db := mk_db {
  fridge : list fridge_row;
  cases : list case_row;
  next_id : nat   (** the next value of the case table's serial [Id] *)
}.

Definition row_field (r : fridge_row) (c : column) : sql_lit :=
  match c with
  | door__c => door r
  | temperature__c => temperature r
  | humidity__c => humidity r
  | ts__c => ts r
  end.

(** [SET c=l] on one row. *)
Definition set_field (c : column) (l : sql_lit) (r : fridge_row) : fridge_row :=
  match c with
  | door__c => mk_fridge_row (deviceId r) l (temperature r) (humidity r) (ts r)
  | temperature__c => mk_fridge_row (deviceId r) (door r) l (humidity r) (ts r)
  | humidity__c => mk_fridge_row (deviceId r) (door r) (temperature r) l (ts r)
  | ts__c => mk_fridge_row (deviceId r) (door r) (temperature r) (humidity r) l
  end.

Definition apply_changes (chs : list (column * sql_lit)) (r : fridge_row) : fridge_row :=
  foldl (λ r ch, set_field ch.1 ch.2 r) r chs.

Definition device_ids (d : db) : list string := map deviceId (fridge d).

(** The rows the WHERE clause [deviceId__c='id'] selects. *)
Definition select_rows (id : string) (d : db) : list fridge_row :=
  filter (λ r, deviceId r = id) (fridge d).

(** The row [INSERT INTO fridge ... VALUES ('id', 'door', temp, hum, 'ts')]
    creates. *)
Definition insert_row (id dr tp hm t : string) : fridge_row :=
  mk_fridge_row id (Quoted dr) (Bare tp) (Bare hm) (Quoted t).

(** The documented defaults of a device row (spec section 3). *)
Definition default_row (id : string) : fridge_row :=
  mk_fridge_row id (Quoted "closed") (Bare "0") (Bare "0") (Quoted "2000-01-01T00:00:00Z").

Definition exec (q : sql) (d : db) : db * list jsval :=
  match q with
  | SelectFridge id =>
      (d, map (λ r, JObject [("deviceid__c", JString (deviceId r))]) (select_rows id d))
  | UpdateFridge chs id =>
      (mk_db (map (λ r, if decide (deviceId r = id) then apply_changes chs r else r) (fridge d))
             (cases d) (next_id d), [])
  | InsertFridge id dr tp hm t =>
      (mk_db (fridge d ++ [insert_row id dr tp hm t])
             (cases d) (next_id d), [])
  | InsertCase s de id =>
      (mk_db (fridge d) (cases d ++ [mk_case_row (next_id d) s de id]) (S (next_id d)),
       [JObject [("id", JNumber (Z.of_nat (next_id d)))]])
  end.

(** ** Invariants of the data model (spec section 3). *)

(** At most one fridge row per device id. *)
Definition unique_ids (d : db) : Prop := NoDup (device_ids d).

(** Every case references an existing device row. *)
Definition cases_ref (d : db) : Prop :=
  ∀ c, c ∈ cases d → related_device c ∈ device_ids d.

(** Both invariants: the data model of spec section 3. *)
Definition server_inv (d : db) : Prop := unique_ids d ∧ cases_ref d.

Lemma apply_changes_deviceId chs r : deviceId (apply_changes chs r) = deviceId r.
Proof.
  unfold apply_changes. revert r.
  induction chs as [|[c l] chs IH]; intros r; simpl; [done|].
  rewrite IH. by destruct c.
Qed.

Lemma row_field_set_eq c l r : row_field (set_field c l r) c = l.
Proof. by destruct c. Qed.

Lemma row_field_set_ne c c' l r : c ≠ c' → row_field (set_field c l r) c' = row_field r c'.
Proof. intros Hne. destruct c, c'; simpl; congruence. Qed.

Lemma set_field_deviceId c l r : deviceId (set_field c l r) = deviceId r.
Proof. by destruct c. Qed.

Lemma fridge_row_ext r r' :
  deviceId r = deviceId r' → (∀ c, row_field r c = row_field r' c) → r = r'.
Proof.
  destruct r, r'; simpl. intros -> Hc.
  pose proof (Hc door__c). pose proof (Hc temperature__c).
  pose proof (Hc humidity__c). pose proof (Hc ts__c). simpl in *. by subst.
Qed.

Lemma apply_changes_cons c l chs r :
  apply_changes ((c, l) :: chs) r = apply_changes chs (set_field c l r).
Proof. done. Qed.

(** A column no change names keeps its value ... *)
Lemma apply_changes_field_absent chs r c :
  (∀ l, (c, l) ∉ chs) → row_field (apply_changes chs r) c = row_field r c.
Proof.
  revert r. induction chs as [|[c' l'] chs IH]; intros r Hno; [done|].
  rewrite apply_changes_cons, IH by (intros l Hl; apply (Hno l); set_solver).
  apply row_field_set_ne. intros ->. apply (Hno l'). set_solver.
Qed.

(** ... and a column all of whose changes write [L] ends up holding [L]. *)
Lemma apply_changes_field_present chs r c L :
  (∀ l, (c, l) ∈ chs → l = L) → (c, L) ∈ chs → row_field (apply_changes chs r) c = L.
Proof.
  revert r. induction chs as [|[c' l'] chs IH]; intros r Hall Hin; [set_solver|].
  rewrite apply_changes_cons.
  destruct (decide ((c, L) ∈ chs)) as [Hin'|Hnin].
  - apply IH; [|done]. intros l Hl. apply Hall. set_solver.
  - assert ((c, L) = (c', l')) as [= <- <-] by set_solver.
    rewrite apply_changes_field_absent; [apply row_field_set_eq|].
    intros l Hl. pose proof (Hall l ltac:(set_solver)) as ->. done.
Qed.

(** An UPDATE keeps the list of device ids as it is. *)
Lemma device_ids_update chs id d :
  device_ids (exec (UpdateFridge chs id) d).1 = device_ids d.
Proof.
  unfold device_ids. simpl. rewrite map_map.
  apply map_ext. intros r. case_decide; [apply apply_changes_deviceId|done].
Qed.

Lemma select_rows_nil id d : select_rows id d = [] ↔ id ∉ device_ids d.
Proof.
  unfold select_rows, device_ids. split.
  - intros H Hin. apply list_elem_of_fmap in Hin as (r & -> & Hr).
    by apply (filter_nil_not_elem_of _ _ r H).
  - intros Hn. destruct (filter _ (fridge d)) as [|r l] eqn:E; [done|].
    assert (r ∈ filter (λ r, deviceId r = id) (fridge d)) as Hr by (rewrite E; set_solver).
    apply list_elem_of_filter in Hr as [<- Hr]. destruct Hn.
    apply list_elem_of_fmap. eauto.
Qed.

(** No statement deletes a device row. *)
Lemma device_ids_exec_mono q d id :
  id ∈ device_ids d → id ∈ device_ids (exec q d).1.
Proof.
  destruct q; [done| | |done].
  - by rewrite device_ids_update.
  - intros H. unfold device_ids in *. simpl. rewrite map_app, elem_of_app. by left.
Qed.


(** ** Lemmas for the invariant *)

Lemma select_true_present {A} (f : fridge_row → A) id d :
  bool_decide (0 < length (map f (select_rows id d))) = true → id ∈ device_ids d.
Proof.
  rewrite bool_decide_eq_true, length_map. intros Hlen.
  destruct (decide (id ∈ device_ids d)) as [|Hn]; [done|].
  apply select_rows_nil in Hn. rewrite Hn in Hlen. simpl in Hlen. lia.
Qed.

Lemma select_false_absent {A} (f : fridge_row → A) id d :
  bool_decide (0 < length (map f (select_rows id d))) = false → id ∉ device_ids d.
Proof.
  rewrite bool_decide_eq_false, length_map. intros Hlen.
  apply select_rows_nil. destruct (select_rows id d); simpl in *; [done|lia].
Qed.

Lemma server_inv_intro rows cs n :
  NoDup (map deviceId rows) → (∀ c, c ∈ cs → related_device c ∈ map deviceId rows) →
  server_inv (mk_db rows cs n).
Proof. intros Hu Hr. split; [exact Hu|exact Hr]. Qed.

Lemma nodup_snoc_fresh rows r :
  NoDup (map deviceId rows) → deviceId r ∉ map deviceId rows →
  NoDup (map deviceId (rows ++ [r])).
Proof.
  intros Hu Hn. rewrite map_app. apply NoDup_app. split; [done|].
  split; [|apply NoDup_singleton]. intros x Hx Hx'. simpl in Hx'.
  apply list_elem_of_singleton in Hx' as ->. done.
Qed.

Lemma inv_update_map d chs id n :
  server_inv d →
  server_inv (mk_db (map (λ r, if decide (deviceId r = id) then apply_changes chs r else r)
                       (fridge d)) (cases d) n).
Proof.
  intros [Hu Hr]. pose proof (device_ids_update chs id d) as Hids.
  unfold device_ids in *. simpl in Hids.
  apply server_inv_intro; rewrite Hids; [exact Hu|exact Hr].
Qed.

Lemma inv_case_snoc d n n' s de id :
  server_inv d → id ∈ device_ids d →
  server_inv (mk_db (fridge d) (cases d ++ [mk_case_row n s de id]) n').
Proof.
  intros [Hu Hr] Hid. apply server_inv_intro; [exact Hu|].
  intros c Hc. apply elem_of_app in Hc as [Hc|Hc]; [by apply Hr|].
  apply list_elem_of_singleton in Hc as ->. exact Hid.
Qed.

Lemma inv_device_snoc d cs n id a b c e :
  server_inv d → id ∉ device_ids d →
  (∀ x, x ∈ cs → related_device x ∈ id :: device_ids d) →
  server_inv (mk_db (fridge d ++ [insert_row id a b c e]) cs n).
Proof.
  intros [Hu _] Hid Hcs. apply server_inv_intro; [by apply nodup_snoc_fresh|].
  intros x Hx. rewrite map_app. simpl. apply Hcs in Hx.
  apply elem_of_cons in Hx as [->|Hx]; set_solver.
Qed.

(** Close a leaf of a handler's run: the tables it ends with satisfy the
    invariant, given the facts the handler's SELECT established. *)
Ltac inv_leaf Hinv :=
  repeat match goal with
  | H : exec _ _ = (_, _) |- _ => simpl in H; injection H as <- _
  | H : bool_decide (0 < length (map _ (select_rows _ _))) = true |- _ =>
      apply select_true_present in H
  | H : bool_decide (0 < length (map _ (select_rows _ _))) = false |- _ =>
      apply select_false_absent in H
  end;
  first [ exact Hinv
        | apply inv_update_map, Hinv
        | apply inv_case_snoc; [exact Hinv|assumption]
        | apply inv_device_snoc; [exact Hinv|assumption|];
          intros x Hx; (apply elem_of_app in Hx as [Hx|Hx] || idtac);
          first [ apply elem_of_cons; right; apply (proj2 Hinv), Hx | set_solver ] ].

#[export] Hint Resolve device_ids_exec_mono : ingest.
#[export] Hint Rewrite device_ids_update apply_changes_deviceId set_field_deviceId
  row_field_set_eq : ingest_rw.

End Store.
