(* ===== verification/Pg.v ===== *)
(** The handlers' side of the [pg] client, as callback programs.  A handler
    of src/index.js is a chain of callbacks: [pg.connect(url, cb)],
    [client.query(sql, cb)], [done()], [resolve(...)] and [reject(...)].
    [prog] writes that chain as a tree whose continuations take the
    callback's argument; [run] executes it against the store of [Store],
    consuming one entry of a fault oracle per connect or query ([Some msg]:
    the operation fails with [err.message = msg]).  A callback that throws
    (a TypeError of a template literal, see [JsValue.to_js_string]) runs
    outside the Promise executor: the exception is not turned into a
    rejection but escapes to Node's event loop ([PThrow], [EvThrow]), and
    nothing after it runs: no settlement, no [done()].  A run yields the
    remaining oracle, the final tables and the trace of events; the
    Promise is settled by the first [EvSettle] of the trace, which the
    dispatcher's [.then]/[.catch] (lines 38-45) turn into the response. *)

From S2P Require Import Prelude JsValue Sql Store.
Import JsValue Sql Store.

Module Pg.

(** How the handler's Promise settles: [resolve(obj)], [reject({code,
    obj})], or an exception thrown inside the executor (a TypeError), which
    rejects the Promise with an Error that has neither [code] nor [obj]. *)
Inductive outcome :=
| Resolved (obj : jsval)
| Rejected (code : Z) (obj : jsval)
| Thrown (err : string).

(** The first argument of the callbacks. *)
Inductive conn_result := ConnError (msg : string) | Connected.
Inductive query_result := QueryError (msg : string) | QueryOk (rows : list jsval).

Inductive prog :=
| PReturn                                     (** the callback returns *)
| PSettle (o : outcome) (k : prog)            (** [resolve]/[reject]/[throw] *)
| PConnect (k : conn_result → prog)           (** [pg.connect(DATABASE_URL, cb)] *)
| PQuery (q : sql) (k : query_result → prog)  (** [client.query(sql_text q, cb)] *)
| PRelease (k : prog)                         (** [done()] *)
| PThrow (err : string).                      (** an exception a callback throws *)

Inductive event :=
| EvConnect (ok : bool)
| EvQuery (q : sql) (ok : bool)
| EvRelease
| EvSettle (o : outcome)
| EvThrow (err : string).

(** [Some msg]: the operation fails with that message. *)
Definition fault := option string.

Definition next_fault (fs : list fault) : fault * list fault :=
  match fs with [] => (None, []) | f :: fs' => (f, fs') end.

Record result := mk_result { r_faults : list fault; r_db : db; r_trace : list event }.

Definition cons_event (ev : event) (r : result) : result :=
  mk_result (r_faults r) (r_db r) (ev :: r_trace r).

Fixpoint run (fs : list fault) (d : db) (p : prog) : result :=
  match p with
  | PReturn => mk_result fs d []
  | PSettle o k => cons_event (EvSettle o) (run fs d k)
  | PConnect k =>
      match next_fault fs with
      | (Some m, fs') => cons_event (EvConnect false) (run fs' d (k (ConnError m)))
      | (None, fs') => cons_event (EvConnect true) (run fs' d (k Connected))
      end
  | PQuery q k =>
      match next_fault fs with
      | (Some m, fs') => cons_event (EvQuery q false) (run fs' d (k (QueryError m)))
      | (None, fs') =>
          let '(d', rows) := exec q d in
          cons_event (EvQuery q true) (run fs' d' (k (QueryOk rows)))
      end
  | PRelease k => cons_event EvRelease (run fs d k)
  | PThrow err => mk_result fs d [EvThrow err]
  end.

(** [reject({code, obj: {state: "error", message}})] and
    [resolve({state: "done", message: ""})]. *)
Definition reject (code : Z) (msg : string) (k : prog) : prog :=
  PSettle (Rejected code (status_obj "error" msg)) k.

(** ** The response *)

Fixpoint first_settle (tr : list event) : option outcome :=
  match tr with
  | [] => None
  | EvSettle o :: _ => Some o
  | _ :: tr' => first_settle tr'
  end.

(** [.then((result) => response(200, result))
     .catch((error) => response(error.code, error.obj))]: an Error thrown
    by the executor has no [code], [res.writeHead(undefined)] throws inside
    the [catch] handler, and no response is written. *)
Definition http_response (o : outcome) : option (Z * jsval) :=
  match o with
  | Resolved obj => Some (200%Z, obj)
  | Rejected code obj => Some (code, obj)
  | Thrown _ => None
  end.

Definition response (r : result) : option (Z * jsval) :=
  first_settle (r_trace r) ≫= http_response.

(** Spec sections 6 and 7: a 200 carries [state: "done"] and an empty
    message (and, for a case, the id after them); a 400 or a 500 carries
    exactly [{state: "error", message}]. *)
Definition response_shape (code : Z) (obj : jsval) : Prop :=
  (code = 200%Z ∧ ∃ extra, obj = JObject (("state", JString "done") :: ("message", JString "") :: extra))
  ∨ ((code = 400%Z ∨ code = 500%Z) ∧ ∃ m, obj = status_obj "error" m).

(** ** What a program may still do *)

(** The device ids a successful statement shows to be in the store: a
    SELECT that returned rows, and an INSERT of a device. *)
Definition learned (q : sql) (rows : list jsval) : list string :=
  match q with
  | SelectFridge id => if bool_decide (0 < length rows) then [id] else []
  | InsertFridge id _ _ _ _ => [id]
  | _ => []
  end.

Definition query_ok (ids : list string) (q : sql) : Prop :=
  match q with InsertCase _ _ id => id ∈ ids | _ => True end.

Definition settle_ok (o : outcome) : Prop :=
  match http_response o with Some (code, obj) => response_shape code obj | None => True end.

Fixpoint safe (ids : list string) (p : prog) : Prop :=
  match p with
  | PReturn => True
  | PSettle o k => settle_ok o ∧ safe ids k
  | PConnect k => ∀ cr, safe ids (k cr)
  | PQuery q k =>
      query_ok ids q ∧ (∀ m, safe ids (k (QueryError m))) ∧
      ∀ rows, safe (learned q rows ++ ids) (k (QueryOk rows))
  | PRelease k => safe ids k
  | PThrow _ => True
  end.

(** ** Reading traces *)

(** The tables after replaying the successful statements of a trace. *)
Definition replay (tr : list event) (d : db) : db :=
  foldl (λ d ev, match ev with EvQuery q true => (exec q d).1 | _ => d end) d tr.

(** The successful writing statements, in order. *)
Definition writes (tr : list event) : list sql :=
  omap (λ ev, match ev with EvQuery q true => if is_write q then Some q else None
                          | _ => None end) tr.

(** The statements sent to the store, failed or not. *)
Definition queries (tr : list event) : list sql :=
  omap (λ ev, match ev with EvQuery q _ => Some q | _ => None end) tr.

Definition connected (tr : list event) : bool :=
  existsb (λ ev, match ev with EvConnect true => true | _ => false end) tr.

Definition released (tr : list event) : bool :=
  existsb (λ ev, match ev with EvRelease => true | _ => false end) tr.

(** How many events of a kind a trace holds. *)
Definition count (f : event → bool) (tr : list event) : nat := length (filter f tr).

Definition is_connect (ev : event) : bool := match ev with EvConnect _ => true | _ => false end.
Definition is_release (ev : event) : bool := match ev with EvRelease => true | _ => false end.

(** What one request may cost: six events (connect, three statements,
    [done()], the settlement), three statements, one pooled connection and
    one [done()]. *)
Definition cost_ok (tr : list event) : Prop :=
  length tr ≤ 6 ∧ length (queries tr) ≤ 3 ∧ count is_connect tr ≤ 1 ∧ count is_release tr ≤ 1.

(** The connection is returned to the pool whenever it was taken. *)
Definition conn_returned (tr : list event) : bool := negb (connected tr) || released tr.

(** ** Lemmas *)

Lemma run_replay fs d p : r_db (run fs d p) = replay (r_trace (run fs d p)) d.
Proof.
  revert fs d. induction p as [|o k IH|k IH|q k IH|k IH|err]; intros fs d; simpl; try done.
  - destruct (next_fault fs) as [[m|] fs']; simpl; apply IH.
  - destruct (next_fault fs) as [[m|] fs']; simpl; [apply IH|].
    destruct (exec q d) as [d' rows] eqn:E. simpl. rewrite E. apply IH.
Qed.

(** A trace with no successful statement leaves the tables alone. *)
Lemma replay_no_query tr d :
  (∀ q, EvQuery q true ∉ tr) → replay tr d = d.
Proof.
  unfold replay. revert d. induction tr as [|ev tr IH]; intros d Hno; simpl; [done|].
  destruct ev as [|q [|]| | |]; try (apply IH; intros q' Hq'; apply (Hno q'); set_solver).
  exfalso. apply (Hno q). set_solver.
Qed.

Lemma replay_app tr1 tr2 d : replay (tr1 ++ tr2) d = replay tr2 (replay tr1 d).
Proof. unfold replay. by rewrite foldl_app. Qed.

#[export] Hint Resolve replay_no_query : ingest.

(** Every statement a program may send, whatever the results it gets,
    satisfies [P]. *)
Fixpoint all_queries (P : sql → Prop) (p : prog) : Prop :=
  match p with
  | PReturn => True
  | PSettle _ k | PRelease k => all_queries P k
  | PConnect k => ∀ cr, all_queries P (k cr)
  | PQuery q k => P q ∧ ∀ qr, all_queries P (k qr)
  | PThrow _ => True
  end.

Lemma all_queries_run P p fs d : all_queries P p → ∀ q, q ∈ queries (r_trace (run fs d p)) → P q.
Proof.
  revert fs d. induction p as [|o k IH|k IH|q k IH|k IH|err]; intros fs d Hp q';
    simpl in Hp |- *; unfold queries in *; simpl; try by eauto.
  - set_solver.
  - destruct (next_fault fs) as [[m|] fs']; simpl; eauto.
  - destruct Hp as [Hq Hk]. destruct (next_fault fs) as [[m|] fs']; simpl;
      [|destruct (exec q d) as [d' rows]; simpl];
      rewrite elem_of_cons; intros [->|Hin]; eauto.
  - set_solver.
Qed.

(** A safe program settles only with a response of the documented shape. *)
Lemma safe_response ids p fs d code obj :
  safe ids p → response (run fs d p) = Some (code, obj) → response_shape code obj.
Proof.
  unfold response. revert ids fs d. induction p as [|o k IH|k IH|q k IH|k IH|err];
    intros ids fs d Hs; simpl in Hs |- *; try done.
  - intros Ho. destruct Hs as [Hok _]. unfold settle_ok in Hok. by rewrite Ho in Hok.
  - destruct (next_fault fs) as [[m|] fs']; simpl; eauto.
  - destruct Hs as (_ & Herr & Hok). destruct (next_fault fs) as [[m|] fs']; simpl; [eauto|].
    destruct (exec q d) as [d' rows]. simpl. eauto.
  - eauto.
Qed.

(** Run a handler against an unknown oracle: split the oracle at every
    connect and query, and every branch of the handler. *)
Ltac run_steps :=
  repeat first
    [ progress simpl
    | match goal with |- context [next_fault ?fs] => is_var fs; destruct fs as [|[?m|] ?fs] end
    | progress destruct_lets
    | match goal with H : Some _ = None |- _ => discriminate H
                    | H : None = Some _ |- _ => discriminate H
                    | H : Some _ = Some ?y |- _ => is_var y; injection H as H; subst y end
    | case_match ].

(** Close the goals [run_steps] leaves for an "all or nothing" statement:
    the run succeeded as the fault-free one did, or it failed on a fault
    of the oracle with the store's message. *)
Ltac all_or_nothing :=
  first [ left; split; reflexivity
        | right; eexists; split; [|split; reflexivity]; set_solver ].

End Pg.
