(* ===== verification/Normalize.v ===== *)
(** The request normaliser [promise] (src/index.js lines 280-300): parse
    the body as JSON; a non-null result goes to the handler, else the
    parsed URL query does, else the request is rejected with 400.  The
    outcome of [JSON.parse(received)] is an input ([None] when it
    throws). *)

From S2P Require Import Prelude JsValue Sql Store Pg.
Import JsValue Store Pg.

Module Normalize.

(** [let jsonReceived = null; try { jsonReceived = JSON.parse(received); }
    catch (e) {}] *)
Definition json_received (parsed : option jsval) : jsval := default JNull parsed.

Definition promise (query : jsval) (parsed : option jsval) (proceed : jsval → prog) : prog :=
  let jsonReceived := json_received parsed in
  if negb (is_null jsonReceived) then proceed jsonReceived
  else if negb (is_null query) then proceed query
  else reject 400 "JSON or query required" PReturn.

(** The value [promise] hands to the handler, when it is not [null]: the
    parsed body, else the query (lines 286-289). *)
Definition submitted (query : jsval) (parsed : option jsval) : jsval :=
  if negb (is_null (json_received parsed)) then json_received parsed else query.

Lemma promise_submitted query parsed proceed :
  promise query parsed proceed =
    if is_null (submitted query parsed) then reject 400 "JSON or query required" PReturn
    else proceed (submitted query parsed).
Proof.
  unfold promise, submitted. destruct (is_null (json_received parsed)) eqn:E; simpl.
  - by destruct (is_null query).
  - by rewrite E.
Qed.

(** What [url.parse(req.url, true).query] yields: an object whose values
    are strings, or arrays of strings for a repeated key. *)
Definition query_string_shaped (v : jsval) : bool :=
  match v with
  | JObject ps =>
      forallb (λ kv, match kv.2 with
                     | JString _ => true
                     | JArray xs => forallb (λ x, match x with JString _ => true | _ => false end) xs
                     | _ => false
                     end) ps
  | _ => false
  end.

(** The body wins whenever it parses to something other than [null]. *)
Lemma promise_body query v proceed :
  v ≠ JNull → promise query (Some v) proceed = proceed v.
Proof. intros Hv. unfold promise. simpl. by destruct v. Qed.

(** A body that does not parse, or parses to [null], falls back to the
    query. *)
Lemma promise_query query parsed proceed :
  json_received parsed = JNull → query ≠ JNull →
  promise query parsed proceed = proceed query.
Proof. intros Hj Hq. unfold promise. rewrite Hj. simpl. by destruct query. Qed.

(** ** The interface between [promise] and the handlers *)

(** What a handler passed to [promise] as [proceed] guarantees the server,
    whatever value it is given and whatever store operations fail: it keeps
    the invariants of the data model, one run of it costs at most
    [cost_ok], and it is [safe]: every response it may write has the
    documented shape and every case it may insert references a device it
    has seen in the store, which is what keeps the invariants under
    interleaving.  [sUpdate_proceed] and [sCase_proceed] are its instances
    (in [Update] and [Case]); the dispatcher's theorems use only this. *)
Class Proceed (proceed : jsval → prog) := {
  proceed_inv q fs d : server_inv d → server_inv (r_db (run fs d (proceed q)));
  proceed_cost q fs d : cost_ok (r_trace (run fs d (proceed q)));
  proceed_safe q : safe [] (proceed q)
}.

Lemma promise_cases query parsed proceed :
  (∃ v, promise query parsed proceed = proceed v) ∨
  promise query parsed proceed = reject 400 "JSON or query required" PReturn.
Proof.
  unfold promise. destruct (negb (is_null _)); [by left; eexists|].
  destruct (negb (is_null query)); [by left; eexists|by right].
Qed.

Section WithProceed.
Context `{Proceed proceed}.

Lemma promise_inv query parsed fs d :
  server_inv d → server_inv (r_db (run fs d (promise query parsed proceed))).
Proof.
  intros Hinv. destruct (promise_cases query parsed proceed) as [[v ->]| ->];
    [by apply proceed_inv|done].
Qed.

Lemma promise_cost query parsed fs d : cost_ok (r_trace (run fs d (promise query parsed proceed))).
Proof.
  destruct (promise_cases query parsed proceed) as [[v ->]| ->]; [apply proceed_cost|].
  unfold cost_ok, count. simpl. lia.
Qed.

Lemma promise_safe query parsed : safe [] (promise query parsed proceed).
Proof.
  destruct (promise_cases query parsed proceed) as [[v ->]| ->]; [apply proceed_safe|].
  simpl. split; [|done]. right. split; [by left|by eexists].
Qed.

End WithProceed.

(** C29 (finding): the "JSON or query required" rejection of [promise]
    (lines 290-297) is dead code: [url.parse(req.url, true).query] is
    always an object, so whatever the body, [promise] hands the handler a
    value: the parsed body, or else the query. *)
Theorem promise_never_rejects query parsed proceed :
  query_string_shaped query = true →
  promise query parsed proceed = proceed (submitted query parsed).
Proof.
  intros Hq. rewrite promise_submitted. unfold submitted.
  destruct (is_null (json_received parsed)) eqn:Hn; simpl; [|by rewrite Hn].
  by destruct query.
Qed.

Lemma promise_never_rejects_witness :
  promise (JObject [("deviceId__c", JString "D1")]) None (λ v, PSettle (Resolved v) PReturn) =
    PSettle (Resolved (submitted (JObject [("deviceId__c", JString "D1")]) None)) PReturn.
Proof. apply promise_never_rejects. reflexivity. Defined.

End Normalize.
