(* ===== verification/Update.v ===== *)
(** The device upsert handler [sUpdate] (src/index.js lines 71-158).
    After [promise] it checks [deviceId__c], connects, scans the request
    for the four columns, SELECTs the device and then UPDATEs the columns
    present or INSERTs a row whose absent columns take their defaults. *)

From S2P Require Import Prelude JsValue Sql Store Pg Normalize.
Import JsValue Sql Store Pg Normalize.

Module Update.

(** The literal [changes.push] writes for one value (lines 99-102):
    [key=value] for a number, [key='value'] for a string, nothing for any
    other [typeof]. *)
Definition change_lit (value : jsval) : option sql_lit :=
  if String.eqb (typeof value) "number" then Bare <$> to_js_string value
  else if String.eqb (typeof value) "string" then Quoted <$> to_js_string value
  else None.

(** [for (let key in query) { if (!cols.includes(key)) continue; ... }]
    (lines 95-103). *)
Definition sUpdate_changes (query : jsval) : list (column * sql_lit) :=
  omap (λ key, c ← column_of_key key;
               l ← change_lit (get query key);
               Some (c, l))
       (for_in_keys query).

(** [x === undefined ? dflt : x] *)
Definition or_default (v dflt : jsval) : jsval := if is_undefined v then dflt else v.

(** The INSERT of the not-found branch (lines 121-125), for the device
    id the SELECT's template has already converted to [id]; [None] when a
    conversion of the template throws. *)
Definition sUpdate_insert (query : jsval) (id : string) : option sql :=
  let door := or_default (get query "door__c") (JString "closed") in
  let temperature := or_default (get query "temperature__c") (JNumber 0) in
  let humidity := or_default (get query "humidity__c") (JNumber 0) in
  let ts := or_default (get query "ts__c") (JString "2000-01-01T00:00:00Z") in
  dr ← to_js_string door; tp ← to_js_string temperature;
  hm ← to_js_string humidity; t ← to_js_string ts;
  Some (InsertFridge id dr tp hm t).

(** The function [sUpdate] passes to [promise] (lines 72-157).  The
    templates of lines 105, 119 and 125 convert [query['deviceId__c']]
    alike, so the text [id] of line 105 is the one of lines 119 and 125; a
    conversion that throws does so inside a [pg] callback ([PThrow]). *)
Definition sUpdate_proceed (query : jsval) : prog :=
  match prop query "deviceId__c" with
  | None => PSettle (Thrown "TypeError") PReturn
  | Some dev =>
    if is_undefined dev then reject 400 "'deviceId__c' field required" PReturn
    else
    PConnect (λ cr,
      match cr with
      | ConnError m => reject 500 m (PRelease PReturn)
      | Connected =>
        let changes := sUpdate_changes query in
        if bool_decide (0 < length changes) then
          match to_js_string dev with
          | None => PThrow "TypeError"
          | Some id =>
          PQuery (SelectFridge id) (λ qr,
            match qr with
            | QueryError m => reject 500 m (PRelease PReturn)
            | QueryOk rows =>
              let sql := if bool_decide (0 < length rows)
                         then Some (UpdateFridge changes id)
                         else sUpdate_insert query id in
              match sql with
              | None => PThrow "TypeError"
              | Some stmt =>
              PQuery stmt (λ qr',
                match qr' with
                | QueryError m => reject 500 m (PRelease PReturn)
                | QueryOk _ => PRelease (PSettle (Resolved (status_obj "done" "")) PReturn)
                end)
              end
            end)
          end
        else reject 400 "At least one field required" PReturn
      end)
  end.

Definition sUpdate (query : jsval) (parsed : option jsval) : prog :=
  promise query parsed sUpdate_proceed.

(** ** The contract of spec section 4.2 *)

(** Row [r] after the submission [query]: a column the submission carries
    as a number holds that number, one it carries as a string holds that
    string, and every other column keeps its value. *)
Definition submitted_field (query : jsval) (r : fridge_row) (c : column) : sql_lit :=
  match get query (column_name c) with
  | JNumber n => Bare (pretty n)
  | JString s => Quoted s
  | _ => row_field r c
  end.

Definition submitted_row (query : jsval) (r : fridge_row) : fridge_row :=
  mk_fridge_row (deviceId r) (submitted_field query r door__c)
    (submitted_field query r temperature__c) (submitted_field query r humidity__c)
    (submitted_field query r ts__c).

(** The typing of spec section 3: [doorState] and [timestamp] are strings,
    [temperature] and [humidity] numbers, when present. *)
Definition column_numeric (c : column) : bool :=
  match c with temperature__c | humidity__c => true | _ => false end.

Definition typed_value (c : column) (v : jsval) : bool :=
  match v with
  | JUndefined => true
  | JNumber _ => column_numeric c
  | JString _ => negb (column_numeric c)
  | _ => false
  end.

Definition well_typed (query : jsval) : bool :=
  forallb (λ c, typed_value c (get query (column_name c))) columns.

(** The values the templates of lines 105, 119 and 125 splice in convert
    to text without throwing: [deviceId__c] and the four columns (an
    absent column takes its default, which converts). *)
Definition columns_print (query : jsval) : bool :=
  forallb (λ c, printable (get query (column_name c))) columns.

Definition update_prints (query : jsval) : bool :=
  printable (get query "deviceId__c") && columns_print query.

(** ** The change scan *)

Lemma change_lit_spec v :
  change_lit v = match v with
                 | JNumber n => Some (Bare (pretty n))
                 | JString s => Some (Quoted s)
                 | _ => None
                 end.
Proof. by destruct v. Qed.

Lemma column_name_not_index c : ¬ head_digit (column_name c) ∧ column_name c ≠ "length".
Proof. by destruct c. Qed.

Lemma elem_of_sUpdate_changes query c l :
  (c, l) ∈ sUpdate_changes query ↔
  column_name c ∈ for_in_keys query ∧ change_lit (get query (column_name c)) = Some l.
Proof.
  unfold sUpdate_changes. rewrite list_elem_of_omap. split.
  - intros (k & Hk & Hf).
    destruct (column_of_key k) as [c'|] eqn:Ec; simpl in Hf; [|done].
    destruct (change_lit (get query k)) as [l'|] eqn:El; simpl in Hf; [|done].
    injection Hf as <- <-. apply column_of_key_Some in Ec as <-. done.
  - intros [Hk Hl]. exists (column_name c). split; [done|].
    by rewrite column_of_key_name, Hl.
Qed.

(** The scan and the UPDATE it feeds implement the contract: applying
    [changes] to a row yields the submitted row. *)
Lemma apply_sUpdate_changes query r :
  apply_changes (sUpdate_changes query) r = submitted_row query r.
Proof.
  apply fridge_row_ext; [by autorewrite with ingest_rw|].
  intros c. transitivity (submitted_field query r c); [|by destruct c].
  unfold submitted_field. destruct (change_lit (get query (column_name c))) as [L|] eqn:E.
  - assert (row_field (apply_changes (sUpdate_changes query) r) c = L) as ->.
    { apply apply_changes_field_present.
      - intros l Hl. apply elem_of_sUpdate_changes in Hl as [_ Hl]. congruence.
      - apply elem_of_sUpdate_changes. split; [|done].
        destruct (column_name_not_index c) as [Hd Hlen].
        unfold get in E. destruct (prop query (column_name c)) as [w|] eqn:Ep; [|done].
        apply (prop_in_keys query _ w); [done..|]. intros ->. done. }
    rewrite change_lit_spec in E. by repeat case_match; simplify_eq.
  - rewrite apply_changes_field_absent.
    + rewrite change_lit_spec in E. by repeat case_match.
    + intros l Hl. apply elem_of_sUpdate_changes in Hl as [_ Hl]. congruence.
Qed.

Lemma or_default_printable v dflt :
  printable v = true → printable dflt = true → printable (or_default v dflt) = true.
Proof. unfold or_default. by destruct (is_undefined v). Qed.

(** The INSERT's template converts whenever the four columns do. *)
Lemma sUpdate_insert_Some query id :
  columns_print query = true → ∃ ins, sUpdate_insert query id = Some ins.
Proof.
  unfold columns_print. simpl. rewrite !andb_true_iff. intros (Hd & Ht & Hh & Hs & _).
  unfold sUpdate_insert.
  repeat match goal with
  | |- context [to_js_string (or_default ?v ?dflt)] =>
      destruct (proj1 (printable_Some (or_default v dflt))) as [? ->];
        [by apply or_default_printable|]
  end.
  by eexists.
Qed.

(** A well-typed submission converts, and on it the INSERT branch writes
    the submitted values over the documented defaults. *)
Lemma sUpdate_insert_row query id d :
  well_typed query = true →
  ∃ ins, sUpdate_insert query id = Some ins ∧
    (exec ins d).1 = mk_db (fridge d ++ [submitted_row query (default_row id)]) (cases d) (next_id d).
Proof.
  unfold well_typed. simpl. rewrite !andb_true_iff. intros (Hd & Ht & Hh & Hs & _).
  unfold sUpdate_insert, submitted_row, submitted_field, or_default. cbn [column_name].
  destruct (get query "door__c"), (get query "temperature__c"), (get query "humidity__c"),
    (get query "ts__c"); try done; (eexists; split; reflexivity).
Qed.

(** One fault-free run of [sUpdate] on a valid submission whose id
    converts to [id]: connect, SELECT, then the UPDATE or the INSERT,
    release, resolve; or, when the INSERT's template throws, the uncaught
    TypeError after the SELECT. *)
Lemma run_sUpdate_ok query dev id d :
  prop query "deviceId__c" = Some dev → is_undefined dev = false → sUpdate_changes query ≠ [] →
  to_js_string dev = Some id →
  run [] d (sUpdate_proceed query) =
    match (if bool_decide (select_rows id d = []) then sUpdate_insert query id
           else Some (UpdateFridge (sUpdate_changes query) id)) with
    | Some stmt =>
        mk_result [] (exec stmt d).1
          [EvConnect true; EvQuery (SelectFridge id) true; EvQuery stmt true; EvRelease;
           EvSettle (Resolved (status_obj "done" ""))]
    | None => mk_result [] d [EvConnect true; EvQuery (SelectFridge id) true; EvThrow "TypeError"]
    end.
Proof.
  intros Hq Hdev Hch Hid. unfold sUpdate_proceed. rewrite Hq, Hdev. simpl.
  rewrite bool_decide_true by (destruct (sUpdate_changes query); simpl in *; [done|lia]).
  rewrite Hid. simpl. rewrite length_map.
  destruct (select_rows id d); simpl; [destruct (sUpdate_insert query id)|];
    simpl; destruct_lets; try done; simpl; by destruct (exec _ d).
Qed.

Lemma sUpdate_insert_inv query id ins :
  sUpdate_insert query id = Some ins →
  ∃ dr tp hm t, ins = InsertFridge id dr tp hm t ∧
    to_js_string (or_default (get query "door__c") (JString "closed")) = Some dr.
Proof.
  unfold sUpdate_insert.
  destruct (to_js_string (or_default (get query "door__c") _)) as [dr|]; [|done].
  destruct (to_js_string (or_default (get query "temperature__c") _)) as [tp|]; [|done].
  destruct (to_js_string (or_default (get query "humidity__c") _)) as [hm|]; [|done].
  destruct (to_js_string (or_default (get query "ts__c") _)) as [t|]; [|done].
  simpl. intros [= <-]. by exists dr, tp, hm, t.
Qed.

Lemma update_prints_Some query dev :
  prop query "deviceId__c" = Some dev → update_prints query = true →
  ∃ id, to_js_string dev = Some id ∧ ∃ ins, sUpdate_insert query id = Some ins.
Proof.
  intros Hq [Hid Hcols]%andb_prop. unfold get in Hid. rewrite Hq in Hid.
  apply printable_Some in Hid as [id Hid]. exists id. split; [done|].
  by apply sUpdate_insert_Some.
Qed.

(** A submission whose [deviceId__c] does not convert: once connected,
    the template of line 105 throws inside the connect callback. *)
Lemma run_sUpdate_throws query dev fs d :
  prop query "deviceId__c" = Some dev → sUpdate_changes query ≠ [] → to_js_string dev = None →
  run fs d (sUpdate_proceed query) =
    match next_fault fs with
    | (Some m, fs') =>
        mk_result fs' d [EvConnect false; EvSettle (Rejected 500 (status_obj "error" m)); EvRelease]
    | (None, fs') => mk_result fs' d [EvConnect true; EvThrow "TypeError"]
    end.
Proof.
  intros Hq Hch Hid. assert (is_undefined dev = false) as Hdev by (by destruct dev).
  unfold sUpdate_proceed. rewrite Hq, Hdev, Hid.
  destruct fs as [|[m|] fs]; simpl; try done;
    by rewrite bool_decide_true by (destruct (sUpdate_changes query); simpl in *; [done|lia]).
Qed.

Lemma submitted_row_idem query r :
  submitted_row query (submitted_row query r) = submitted_row query r.
Proof.
  unfold submitted_row, submitted_field. simpl.
  f_equal; by case_match.
Qed.

(** An UPDATE with the submission's changes on tables whose matching rows
    already hold the submitted values changes nothing. *)
Lemma update_fixed query id d :
  (∀ r, r ∈ fridge d → deviceId r = id → submitted_row query r = r) →
  (exec (UpdateFridge (sUpdate_changes query) id) d).1 = d.
Proof.
  intros Hfix. destruct d as [rows cs n]. simpl in *. f_equal.
  rewrite <- (map_id rows) at 2. apply map_ext_in. intros r Hr.
  case_decide; [|done]. rewrite apply_sUpdate_changes.
  apply Hfix; [by apply list_elem_of_In|done].
Qed.

(** ** Properties of [sUpdate] *)

(** C1: a valid, well-typed submission for a device with no row inserts
    exactly one row, whose columns absent from the submission hold the
    documented defaults and whose present columns hold the submitted
    values (numbers bare, strings quoted); the response is 200 done. *)
Theorem sUpdate_new_device query dev id d :
  prop query "deviceId__c" = Some dev → is_undefined dev = false → to_js_string dev = Some id →
  sUpdate_changes query ≠ [] → well_typed query = true →
  select_rows id d = [] →
  let r := run [] d (sUpdate_proceed query) in
  response r = Some (200%Z, status_obj "done" "") ∧
  r_db r = mk_db (fridge d ++ [submitted_row query (default_row id)]) (cases d) (next_id d).
Proof.
  intros Hq Hdev Hid Hch Hwt Hsel. rewrite (run_sUpdate_ok query dev id) by done.
  rewrite bool_decide_true by done.
  destruct (sUpdate_insert_row query id d Hwt) as (ins & -> & Hins). by split.
Qed.

Lemma sUpdate_new_device_witness :
  let q := JObject [("deviceId__c", JString "D1"); ("temperature__c", JNumber 22)] in
  response (run [] (mk_db [] [] 0) (sUpdate_proceed q)) = Some (200%Z, status_obj "done" "") ∧
  r_db (run [] (mk_db [] [] 0) (sUpdate_proceed q)) =
    mk_db [submitted_row q (default_row "D1")] [] 0.
Proof.
  intros q. apply (sUpdate_new_device q (JString "D1") "D1"); vm_compute; done.
Defined.

(** C2: a valid submission for a device that has a row updates only the
    matching rows: a column present in the submission as a number or a
    string is overwritten with it, every other column is unchanged, other
    devices and the case table are untouched; the response is 200 done. *)
Theorem sUpdate_existing_device query dev id d :
  prop query "deviceId__c" = Some dev → is_undefined dev = false → to_js_string dev = Some id →
  sUpdate_changes query ≠ [] → select_rows id d ≠ [] →
  let r := run [] d (sUpdate_proceed query) in
  response r = Some (200%Z, status_obj "done" "") ∧
  r_db r = mk_db (map (λ row, if decide (deviceId row = id)
                              then submitted_row query row else row) (fridge d))
                 (cases d) (next_id d).
Proof.
  intros Hq Hdev Hid Hch Hsel. rewrite (run_sUpdate_ok query dev id) by done.
  rewrite bool_decide_false by done. split; [done|]. simpl. f_equal.
  apply map_ext. intros row. case_decide; [apply apply_sUpdate_changes|done].
Qed.

Definition scenario_existing : db :=
  mk_db [mk_fridge_row "D1" (Quoted "open") (Bare "22") (Bare "40")
           (Quoted "2020-01-01T00:00:00Z")] [] 0.

Lemma sUpdate_existing_device_witness :
  let q := JObject [("deviceId__c", JString "D1"); ("temperature__c", JNumber 25)] in
  response (run [] scenario_existing (sUpdate_proceed q)) = Some (200%Z, status_obj "done" "") ∧
  r_db (run [] scenario_existing (sUpdate_proceed q)) =
    mk_db (map (λ row, if decide (deviceId row = "D1") then submitted_row q row else row)
             (fridge scenario_existing)) [] 0.
Proof.
  intros q. apply (sUpdate_existing_device q (JString "D1") "D1"); vm_compute; done.
Defined.

(** C14: a submission without [deviceId__c] is rejected with 400 before
    any store operation: no connection, no statement, tables unchanged. *)
Theorem sUpdate_missing_id query fs d :
  prop query "deviceId__c" = Some JUndefined →
  run fs d (sUpdate_proceed query) =
    mk_result fs d [EvSettle (Rejected 400 (status_obj "error" "'deviceId__c' field required"))].
Proof. intros Hq. unfold sUpdate_proceed. by rewrite Hq. Qed.

Lemma sUpdate_missing_id_witness :
  run [Some "down"] scenario_existing (sUpdate_proceed (JObject [("temperature__c", JNumber 1)])) =
    mk_result [Some "down"] scenario_existing
      [EvSettle (Rejected 400 (status_obj "error" "'deviceId__c' field required"))].
Proof. apply sUpdate_missing_id. reflexivity. Defined.

(** C13: a submission with an id but none of the four columns (as a number
    or a string) is rejected without any statement and with the tables
    unchanged: 400 "At least one field required" once connected, 500 with
    the store's message when the connection fails. *)
Theorem sUpdate_no_fields query dev fs d :
  prop query "deviceId__c" = Some dev → is_undefined dev = false →
  sUpdate_changes query = [] →
  let r := run fs d (sUpdate_proceed query) in
  queries (r_trace r) = [] ∧ r_db r = d ∧
  response r = Some (match next_fault fs with
                     | (Some m, _) => (500%Z, status_obj "error" m)
                     | (None, _) => (400%Z, status_obj "error" "At least one field required")
                     end).
Proof.
  intros Hq Hdev Hch. unfold sUpdate_proceed. rewrite Hq, Hdev, Hch.
  by destruct fs as [|[m|] fs].
Qed.

Lemma sUpdate_no_fields_witness :
  let q := JObject [("deviceId__c", JString "D1"); ("color", JString "red");
                    ("door__c", JBool true)] in
  let r := run [] scenario_existing (sUpdate_proceed q) in
  queries (r_trace r) = [] ∧ r_db r = scenario_existing ∧
  response r = Some (400%Z, status_obj "error" "At least one field required").
Proof. intros q. apply (sUpdate_no_fields q (JString "D1")); vm_compute; done. Defined.

(** C18 (finding): on the "At least one field required" path the pooled
    connection is taken and never given back: [done()] is not called. *)
Theorem sUpdate_no_fields_leaks query dev fs d :
  prop query "deviceId__c" = Some dev → is_undefined dev = false →
  sUpdate_changes query = [] → (next_fault fs).1 = None →
  conn_returned (r_trace (run fs d (sUpdate_proceed query))) = false.
Proof.
  intros Hq Hdev Hch Hf. unfold sUpdate_proceed. rewrite Hq, Hdev, Hch.
  destruct fs as [|[m|] fs]; simpl in *; [done|discriminate|done].
Qed.

Lemma sUpdate_no_fields_leaks_witness :
  conn_returned (r_trace (run [] scenario_existing
    (sUpdate_proceed (JObject [("deviceId__c", JString "D1")])))) = false.
Proof. apply (sUpdate_no_fields_leaks _ (JString "D1")); reflexivity. Defined.

(** C8: store failures are all or nothing.  Whatever store operations
    fail, a valid submission either succeeds with exactly the effect of
    the fault-free run and answers 200, or answers 500 with the message of
    one of the failures verbatim and leaves both tables unchanged. *)
Theorem sUpdate_all_or_nothing query dev fs d :
  prop query "deviceId__c" = Some dev → is_undefined dev = false →
  sUpdate_changes query ≠ [] → update_prints query = true →
  let r := run fs d (sUpdate_proceed query) in
  (response r = Some (200%Z, status_obj "done" "") ∧
   r_db r = r_db (run [] d (sUpdate_proceed query))) ∨
  (∃ m, Some m ∈ fs ∧ response r = Some (500%Z, status_obj "error" m) ∧ r_db r = d).
Proof.
  intros Hq Hdev Hch Hpr. destruct (update_prints_Some query dev Hq Hpr) as (id & Hid & ins & Hins).
  unfold sUpdate_proceed. rewrite Hq, Hdev, Hid, Hins.
  rewrite bool_decide_true by (destruct (sUpdate_changes query); simpl in *; [done|lia]).
  run_steps; all_or_nothing.
Qed.

Lemma sUpdate_all_or_nothing_witness :
  let q := JObject [("deviceId__c", JString "D1"); ("temperature__c", JNumber 25)] in
  let r := run [None; None; Some "deadlock detected"] scenario_existing (sUpdate_proceed q) in
  (response r = Some (200%Z, status_obj "done" "") ∧
   r_db r = r_db (run [] scenario_existing (sUpdate_proceed q))) ∨
  (∃ m, Some m ∈ [None; None; Some "deadlock detected"] ∧
        response r = Some (500%Z, status_obj "error" m) ∧ r_db r = scenario_existing).
Proof. intros q. apply (sUpdate_all_or_nothing q (JString "D1")); vm_compute; done. Defined.

(** The tables after a fault-free run of [sUpdate] on a valid submission
    hold a row for the device, and every row of the device holds the
    submitted values already. *)
Lemma sUpdate_ok_fixed query dev id d :
  prop query "deviceId__c" = Some dev → is_undefined dev = false → to_js_string dev = Some id →
  sUpdate_changes query ≠ [] → well_typed query = true →
  let d1 := r_db (run [] d (sUpdate_proceed query)) in
  id ∈ device_ids d1 ∧
  ∀ r, r ∈ fridge d1 → deviceId r = id → submitted_row query r = r.
Proof.
  intros Hq Hdev Hid Hch Hwt. rewrite (run_sUpdate_ok query dev id) by done.
  case_bool_decide as Hsel.
  - destruct (sUpdate_insert_row query id d Hwt) as (ins & -> & Hins). simpl.
    rewrite Hins. unfold device_ids. simpl.
    rewrite map_app, elem_of_app. split; [right; simpl; set_solver|].
    intros r Hr Hrid. apply elem_of_app in Hr as [Hr|Hr].
    + apply select_rows_nil in Hsel. destruct Hsel. unfold device_ids.
      apply list_elem_of_fmap. eauto.
    + apply list_elem_of_singleton in Hr as ->. apply submitted_row_idem.
  - cbn -[exec device_ids]. split.
    + rewrite device_ids_update.
      destruct (decide (id ∈ device_ids d)) as [|Hn]; [done|].
      by apply select_rows_nil in Hn.
    + simpl. intros r Hr Hrid. apply list_elem_of_fmap in Hr as (r0 & -> & Hr0).
      case_decide as Hr0id; [by rewrite apply_sUpdate_changes, submitted_row_idem|done].
Qed.

(** C16: repeating a well-typed submission leaves the tables as the first
    submission left them (spec section 8, idempotence). *)
Theorem sUpdate_idempotent query d :
  well_typed query = true →
  let d1 := r_db (run [] d (sUpdate_proceed query)) in
  r_db (run [] d1 (sUpdate_proceed query)) = d1.
Proof.
  intros Hwt. simpl.
  destruct (prop query "deviceId__c") as [dev|] eqn:Hq;
    [|unfold sUpdate_proceed; by rewrite !Hq].
  destruct (is_undefined dev) eqn:Hdev; [unfold sUpdate_proceed; by rewrite !Hq, !Hdev|].
  destruct (decide (sUpdate_changes query = [])) as [Hch|Hch].
  { unfold sUpdate_proceed. by rewrite !Hq, !Hdev, !Hch. }
  destruct (to_js_string dev) as [id|] eqn:Hid;
    [|by rewrite !(run_sUpdate_throws query dev [] _ Hq Hch Hid)].
  destruct (sUpdate_ok_fixed query dev id d Hq Hdev Hid Hch Hwt) as [Hin Hfix].
  revert Hin Hfix. generalize (r_db (run [] d (sUpdate_proceed query))). intros d1 Hin Hfix.
  rewrite (run_sUpdate_ok query dev id d1) by done.
  rewrite bool_decide_false by (intros Hs; by apply select_rows_nil in Hs).
  by apply update_fixed.
Qed.

Lemma sUpdate_idempotent_witness :
  let q := JObject [("deviceId__c", JString "D1"); ("door__c", JString "open")] in
  let d1 := r_db (run [] scenario_existing (sUpdate_proceed q)) in
  r_db (run [] d1 (sUpdate_proceed q)) = d1.
Proof. intros q. apply sUpdate_idempotent. reflexivity. Defined.

(** C21 (finding): the INSERT branch does not follow the typing the
    change scan applies.  A [door__c] that is [null] is ignored by the scan
    (so the contract keeps the default "closed"), but [x === undefined]
    is false for [null], so the new row stores the text 'null'. *)
Theorem sUpdate_insert_null_door query dev id d :
  prop query "deviceId__c" = Some dev → is_undefined dev = false → to_js_string dev = Some id →
  columns_print query = true → sUpdate_changes query ≠ [] → select_rows id d = [] →
  get query "door__c" = JNull →
  ∃ r, r_db (run [] d (sUpdate_proceed query)) = mk_db (fridge d ++ [r]) (cases d) (next_id d) ∧
       door r = Quoted "null" ∧
       door (submitted_row query (default_row id)) = Quoted "closed".
Proof.
  intros Hq Hdev Hid Hcols Hch Hsel Hdoor. rewrite (run_sUpdate_ok query dev id) by done.
  rewrite bool_decide_true by done.
  destruct (sUpdate_insert_Some query id Hcols) as [ins Hins]. rewrite Hins.
  destruct (sUpdate_insert_inv query id ins Hins) as (dr & tp & hm & t & -> & Hdr).
  rewrite Hdoor in Hdr. simplify_eq/=. eexists. split; [reflexivity|].
  unfold submitted_row, submitted_field. simpl. by rewrite Hdoor.
Qed.

Lemma sUpdate_insert_null_door_witness :
  ∃ r, r_db (run [] (mk_db [] [] 0) (sUpdate_proceed (JObject [("deviceId__c", JString "D1");
          ("temperature__c", JNumber 5); ("door__c", JNull)]))) = mk_db ([] ++ [r]) [] 0 ∧
       door r = Quoted "null" ∧
       door (submitted_row (JObject [("deviceId__c", JString "D1");
          ("temperature__c", JNumber 5); ("door__c", JNull)]) (default_row "D1")) = Quoted "closed".
Proof.
  apply (sUpdate_insert_null_door _ (JString "D1") "D1" (mk_db [] [] 0)); vm_compute; done.
Defined.

(** C6 (finding): a device id whose conversion to text throws (a JSON
    object with its own [toString] key, such as [{"toString":1}]) passes
    the [=== undefined] check, and the template of line 105 throws inside
    the [pg.connect] callback.  The exception escapes the Promise, which
    never settles: no response is written, [done()] is never called and
    the pooled connection is not returned; no statement is sent. *)
Theorem sUpdate_unprintable_id query dev fs d :
  prop query "deviceId__c" = Some dev → to_js_string dev = None → sUpdate_changes query ≠ [] →
  (next_fault fs).1 = None →
  let r := run fs d (sUpdate_proceed query) in
  response r = None ∧ conn_returned (r_trace r) = false ∧ queries (r_trace r) = [] ∧
  r_db r = d ∧ last (r_trace r) = Some (EvThrow "TypeError").
Proof.
  intros Hq Hid Hch Hf. rewrite (run_sUpdate_throws query dev fs d Hq Hch Hid).
  destruct fs as [|[m|] fs]; simpl in *; [done|discriminate|done].
Qed.

Lemma sUpdate_unprintable_id_witness :
  let q := JObject [("deviceId__c", JObject [("toString", JNumber 1)]); ("door__c", JString "x")] in
  let r := run [] scenario_existing (sUpdate_proceed q) in
  response r = None ∧ conn_returned (r_trace r) = false ∧ queries (r_trace r) = [] ∧
  r_db r = scenario_existing ∧ last (r_trace r) = Some (EvThrow "TypeError").
Proof. intros q. apply (sUpdate_unprintable_id q (JObject [("toString", JNumber 1)])); try reflexivity; discriminate. Defined.

(** [sUpdate_proceed] settles with a code on every submission that is an
    object whose converted values convert, whatever the store failures. *)
Lemma sUpdate_proceed_responds q fs d :
  q ≠ JUndefined → q ≠ JNull → update_prints q = true →
  is_Some (response (run fs d (sUpdate_proceed q))).
Proof.
  intros Hu Hn Hpr. unfold sUpdate_proceed.
  destruct (prop q "deviceId__c") as [dev|] eqn:Hq; [|by apply prop_None in Hq as [|]].
  destruct (update_prints_Some q dev Hq Hpr) as (id & Hid & ins & Hins). rewrite Hid, Hins.
  run_steps; by eexists.
Qed.

(** ** [sUpdate_proceed] as a handler of [promise] *)

#[export] Instance sUpdate_proceed_spec : Proceed sUpdate_proceed.
Proof.
  split; intros q; [intros fs d..|]; unfold sUpdate_proceed.
  - intros Hinv. run_steps;
      repeat match goal with H : sUpdate_insert _ _ = Some _ |- _ =>
        apply sUpdate_insert_inv in H as (?dr & ?tp & ?hm & ?ts & -> & _) end;
      inv_leaf Hinv.
  - run_steps; unfold cost_ok, count; simpl; lia.
  - repeat first
      [ progress simpl
      | progress split
      | progress intros
      | case_bool_decide
      | match goal with H : sUpdate_insert _ _ = Some _ |- _ =>
          apply sUpdate_insert_inv in H as (?dr & ?tp & ?hm & ?ts & -> & _) end
      | case_match
      | match goal with |- _ ∈ _ => set_solver end
      | left; split; [done|eexists; reflexivity]
      | right; split; [by auto|eexists; reflexivity] ].
Qed.

End Update.
