(* ===== verification/Case.v ===== *)
(** The case handler [sCase] and its second half [sInsertCase]
    (src/index.js lines 167-270).  After [promise] it checks [Subject],
    [Description] and [Related_Fridge__r.DeviceId__c], connects, SELECTs
    the referenced device, INSERTs it with the default values when it is
    missing, and INSERTs the case, answering with the case's [Id]. *)

From S2P Require Import Prelude JsValue Sql Store Pg Normalize.
Import JsValue Sql Store Pg Normalize.

Module Case.

(** [query['Related_Fridge__r']['DeviceId__c']], read after the checks of
    lines 169-188 have made it a defined value. *)
Definition related_id (query : jsval) : jsval :=
  get (get query "Related_Fridge__r") "DeviceId__c".

(** The id field of the response: [result.rows.length > 0 ?
    result.rows[0]['id'] : ''] (line 267). *)
Definition returned_id (rows : list jsval) : jsval :=
  match rows with r0 :: _ => get r0 "id" | [] => JString "" end.

Definition done_with_id (id : jsval) : jsval :=
  JObject [("state", JString "done"); ("message", JString ""); ("id", id)].

(** The template of line 249; [None] when one of its conversions throws. *)
Definition case_insert (query : jsval) : option sql :=
  sj ← to_js_string (get query "Subject"); de ← to_js_string (get query "Description");
  id ← to_js_string (related_id query); Some (InsertCase sj de id).

(** [sInsertCase(query, resolve, reject, client, done)] (lines 248-270),
    called from a [pg] callback: a conversion that throws escapes it. *)
Definition sInsertCase (query : jsval) : prog :=
  match case_insert query with
  | None => PThrow "TypeError"
  | Some stmt =>
    PQuery stmt (λ qr,
      match qr with
      | QueryError m => reject 500 m (PRelease PReturn)
      | QueryOk rows => PRelease (PSettle (Resolved (done_with_id (returned_id rows))) PReturn)
      end)
  end.

(** The auto-provisioning INSERT with the default values (line 216). *)
Definition provision (id : string) : sql :=
  InsertFridge id "closed" "0" "0" "2000-01-01T00:00:00Z".

(** The function [sCase] passes to [promise] (lines 168-235).  The
    templates of lines 201 and 216 convert the same device id, so the text
    [id] of line 201 is the one of line 216. *)
Definition sCase_proceed (query : jsval) : prog :=
  match prop query "Subject" with
  | None => PSettle (Thrown "TypeError") PReturn
  | Some subj =>
    if is_undefined subj || is_undefined (get query "Description")
       || is_undefined (get query "Related_Fridge__r")
    then reject 400 "Missed some fields" PReturn
    else
    match prop (get query "Related_Fridge__r") "DeviceId__c" with
    | None => PSettle (Thrown "TypeError") PReturn
    | Some dev =>
      if is_undefined dev then reject 400 "Related_Fridge__r.DeviceId__c field required" PReturn
      else
      PConnect (λ cr,
        match cr with
        | ConnError m => reject 500 m (PRelease PReturn)
        | Connected =>
          match to_js_string dev with
          | None => PThrow "TypeError"
          | Some id =>
          PQuery (SelectFridge id) (λ qr,
            match qr with
            | QueryError m => reject 500 m (PRelease PReturn)
            | QueryOk rows =>
              if bool_decide (0 < length rows) then sInsertCase query
              else PQuery (provision id) (λ qr',
                match qr' with
                | QueryError m => reject 500 m (PRelease PReturn)
                | QueryOk _ => sInsertCase query
                end)
            end)
          end
        end)
    end
  end.

Definition sCase (query : jsval) (parsed : option jsval) : prog :=
  promise query parsed sCase_proceed.

(** The values the templates of lines 201, 216 and 249 splice in convert
    to text without throwing. *)
Definition case_prints (query : jsval) : bool :=
  printable (get query "Subject") && printable (get query "Description")
  && printable (related_id query).

(** Unfold [sCase_proceed] down to its SELECT on a valid submission. *)
Ltac case_valid Hsubj Hfields Hdev Hdef Hid :=
  unfold sCase_proceed; rewrite Hsubj; simpl; rewrite Hfields; simpl; rewrite Hdev, Hdef, Hid.

Lemma case_insert_dev query dev ins :
  prop (get query "Related_Fridge__r") "DeviceId__c" = Some dev → case_insert query = Some ins →
  ∃ sj de id, ins = InsertCase sj de id ∧ to_js_string dev = Some id.
Proof.
  intros Hdev. assert (related_id query = dev) as Hrel by (unfold related_id, get at 1; by rewrite Hdev).
  unfold case_insert. rewrite Hrel.
  destruct (to_js_string (get query "Subject")) as [sj|]; [|done].
  destruct (to_js_string (get query "Description")) as [de|]; [|done].
  destruct (to_js_string dev) as [id|]; [|done]. simpl. intros [= <-]. eauto.
Qed.

Lemma case_prints_Some query : case_prints query = true → ∃ ins, case_insert query = Some ins.
Proof.
  unfold case_prints, case_insert. intros [[Hs Hd]%andb_prop Hr]%andb_prop.
  apply printable_Some in Hs as [? ->], Hd as [? ->], Hr as [? ->]. by eexists.
Qed.

Section ValidCase.

(** A submission that passes the checks of lines 169-188, whose device id
    converts to the text [id]. *)
Context (query subj dev : jsval) (id : string).
Hypothesis Hsubj : prop query "Subject" = Some subj.
Hypothesis Hfields : (is_undefined subj || is_undefined (get query "Description")
                      || is_undefined (get query "Related_Fridge__r")) = false.
Hypothesis Hdev : prop (get query "Related_Fridge__r") "DeviceId__c" = Some dev.
Hypothesis Hdef : is_undefined dev = false.
Hypothesis Hid : to_js_string dev = Some id.

Lemma related_id_dev : related_id query = dev.
Proof. unfold related_id, get at 1. by rewrite Hdev. Qed.

(** C10: when the provisioning INSERT fails, the case INSERT is never
    sent: the response is 500 with the store's message and both tables
    are unchanged. *)
Theorem sCase_provision_fails d m fs :
  select_rows id d = [] →
  let r := run (None :: None :: Some m :: fs) d (sCase_proceed query) in
  response r = Some (500%Z, status_obj "error" m) ∧
  queries (r_trace r) = [SelectFridge id; provision id] ∧
  r_db r = d.
Proof.
  intros Hsel. case_valid Hsubj Hfields Hdev Hdef Hid. simpl. rewrite Hsel. done.
Qed.

(** C26 (finding): a [Subject] or [Description] whose conversion to text
    throws (a JSON object with its own [toString] key) passes the
    [=== undefined] checks; for a device with no row, the handler SELECTs,
    provisions the device, and the template of line 249 then throws inside
    the provisioning callback.  The Promise never settles: no response is
    written, [done()] is never called, and the provisioned device row stays
    with no case row. *)
Theorem sCase_unprintable_text d :
  printable (get query "Subject") && printable (get query "Description") = false →
  select_rows id d = [] →
  let r := run [] d (sCase_proceed query) in
  response r = None ∧ conn_returned (r_trace r) = false ∧ writes (r_trace r) = [provision id] ∧
  r_db r = mk_db (fridge d ++ [default_row id]) (cases d) (next_id d) ∧
  last (r_trace r) = Some (EvThrow "TypeError").
Proof.
  intros Hpr Hsel. assert (case_insert query = None) as Hnone.
  { unfold case_insert, printable in *.
    destruct (to_js_string (get query "Subject")), (to_js_string (get query "Description")); done. }
  case_valid Hsubj Hfields Hdev Hdef Hid. simpl. rewrite Hsel. simpl.
  unfold sInsertCase. by rewrite Hnone.
Qed.

Section Texts.

(** The case's texts convert too. *)
Context (sj de : string).
Hypothesis Hsj : to_js_string (get query "Subject") = Some sj.
Hypothesis Hde : to_js_string (get query "Description") = Some de.

Lemma case_insert_ok : case_insert query = Some (InsertCase sj de id).
Proof. unfold case_insert. by rewrite Hsj, Hde, related_id_dev, Hid. Qed.

(** C3: a case for a device with no row auto-provisions the device with
    the default values, then inserts the case: exactly two writes, in that
    order; the response is 200 with the case's generated id. *)
Theorem sCase_unknown_device d :
  select_rows id d = [] →
  let r := run [] d (sCase_proceed query) in
  response r = Some (200%Z, done_with_id (JNumber (Z.of_nat (next_id d)))) ∧
  writes (r_trace r) = [provision id; InsertCase sj de id] ∧
  r_db r = mk_db (fridge d ++ [default_row id])
                 (cases d ++ [mk_case_row (next_id d) sj de id]) (S (next_id d)).
Proof.
  intros Hsel. case_valid Hsubj Hfields Hdev Hdef Hid. simpl. rewrite Hsel.
  unfold sInsertCase. by rewrite case_insert_ok.
Qed.

(** C4: a case for a device that has a row inserts the case only: one
    write, the fridge table unchanged; the response is 200 with the id. *)
Theorem sCase_known_device d :
  select_rows id d ≠ [] →
  let r := run [] d (sCase_proceed query) in
  response r = Some (200%Z, done_with_id (JNumber (Z.of_nat (next_id d)))) ∧
  writes (r_trace r) = [InsertCase sj de id] ∧
  r_db r = mk_db (fridge d) (cases d ++ [mk_case_row (next_id d) sj de id]) (S (next_id d)).
Proof.
  intros Hsel. case_valid Hsubj Hfields Hdev Hdef Hid. simpl.
  destruct (select_rows id d) as [|r0 rs]; [done|]. simpl.
  unfold sInsertCase. by rewrite case_insert_ok.
Qed.

(** C9: the two writes are not atomic.  When the case INSERT fails after
    the provisioning INSERT succeeded, the response is 500 with the
    store's message and the provisioned device row stays; no case row. *)
Theorem sCase_partial_effect d m fs :
  select_rows id d = [] →
  let r := run (None :: None :: None :: Some m :: fs) d (sCase_proceed query) in
  response r = Some (500%Z, status_obj "error" m) ∧
  r_db r = mk_db (fridge d ++ [default_row id]) (cases d) (next_id d).
Proof.
  intros Hsel. case_valid Hsubj Hfields Hdev Hdef Hid. simpl. rewrite Hsel.
  unfold sInsertCase. by rewrite case_insert_ok.
Qed.

End Texts.

End ValidCase.

Definition scenario_case : jsval :=
  JObject [("Subject", JString "S"); ("Description", JString "D");
           ("Related_Fridge__r", JObject [("DeviceId__c", JString "D9")])].

Definition scenario_known : db :=
  mk_db [default_row "D9"] [] 3.

Lemma sCase_unknown_device_witness :
  let r := run [] (mk_db [] [] 7) (sCase_proceed scenario_case) in
  response r = Some (200%Z, done_with_id (JNumber 7)) ∧
  writes (r_trace r) = [provision "D9"; InsertCase "S" "D" "D9"] ∧
  r_db r = mk_db [default_row "D9"] [mk_case_row 7 "S" "D" "D9"] 8.
Proof.
  apply (sCase_unknown_device scenario_case (JString "S") (JString "D9") "D9" eq_refl eq_refl eq_refl eq_refl eq_refl "S" "D" eq_refl eq_refl); reflexivity.
Defined.

Lemma sCase_known_device_witness :
  let r := run [] scenario_known (sCase_proceed scenario_case) in
  response r = Some (200%Z, done_with_id (JNumber 3)) ∧
  writes (r_trace r) = [InsertCase "S" "D" "D9"] ∧
  r_db r = mk_db [default_row "D9"] [mk_case_row 3 "S" "D" "D9"] 4.
Proof.
  apply (sCase_known_device scenario_case (JString "S") (JString "D9") "D9" eq_refl eq_refl eq_refl eq_refl eq_refl "S" "D" eq_refl eq_refl); try reflexivity.
  discriminate.
Defined.

Lemma sCase_partial_effect_witness :
  let r := run [None; None; None; Some "too many connections"] (mk_db [] [] 0)
             (sCase_proceed scenario_case) in
  response r = Some (500%Z, status_obj "error" "too many connections") ∧
  r_db r = mk_db [default_row "D9"] [] 0.
Proof.
  apply (sCase_partial_effect scenario_case (JString "S") (JString "D9") "D9" eq_refl eq_refl eq_refl eq_refl eq_refl "S" "D" eq_refl eq_refl); reflexivity.
Defined.

Lemma sCase_unprintable_text_witness :
  let q := JObject [("Subject", JObject [("toString", JNumber 1)]); ("Description", JString "D");
                    ("Related_Fridge__r", JObject [("DeviceId__c", JString "D9")])] in
  let r := run [] (mk_db [] [] 0) (sCase_proceed q) in
  response r = None ∧ conn_returned (r_trace r) = false ∧ writes (r_trace r) = [provision "D9"] ∧
  r_db r = mk_db ([] ++ [default_row "D9"]) [] 0 ∧ last (r_trace r) = Some (EvThrow "TypeError").
Proof.
  intros q. apply (sCase_unprintable_text q (JObject [("toString", JNumber 1)]) (JString "D9") "D9");
    reflexivity.
Defined.

Lemma sCase_provision_fails_witness :
  let r := run [None; None; Some "disk full"] (mk_db [] [] 0) (sCase_proceed scenario_case) in
  response r = Some (500%Z, status_obj "error" "disk full") ∧
  queries (r_trace r) = [SelectFridge "D9"; provision "D9"] ∧
  r_db r = mk_db [] [] 0.
Proof.
  apply (sCase_provision_fails scenario_case (JString "S") (JString "D9") "D9"); reflexivity.
Defined.

(** C15: a case missing [Subject], [Description] or [Related_Fridge__r]
    is rejected with 400 before any store operation. *)
Theorem sCase_missing_fields query subj fs d :
  prop query "Subject" = Some subj →
  (is_undefined subj || is_undefined (get query "Description")
   || is_undefined (get query "Related_Fridge__r")) = true →
  run fs d (sCase_proceed query) =
    mk_result fs d [EvSettle (Rejected 400 (status_obj "error" "Missed some fields"))].
Proof. intros Hs Hf. unfold sCase_proceed. rewrite Hs. simpl. by rewrite Hf. Qed.

Lemma sCase_missing_fields_witness :
  run [] scenario_known (sCase_proceed (JObject [("Subject", JString "S");
        ("Related_Fridge__r", JObject [("DeviceId__c", JString "D9")])])) =
    mk_result [] scenario_known [EvSettle (Rejected 400 (status_obj "error" "Missed some fields"))].
Proof. apply (sCase_missing_fields _ (JString "S")); reflexivity. Defined.

(** C19 (finding): a case whose [Related_Fridge__r] is [null] passes the
    [=== undefined] checks, and reading [.DeviceId__c] of [null] throws a
    TypeError inside the Promise executor; the [.catch] handler then calls
    [res.writeHead(undefined)], so no response is ever written. *)
Theorem sCase_null_related query subj fs d :
  prop query "Subject" = Some subj → is_undefined subj = false →
  is_undefined (get query "Description") = false → get query "Related_Fridge__r" = JNull →
  let r := run fs d (sCase_proceed query) in
  response r = None ∧ r_trace r = [EvSettle (Thrown "TypeError")] ∧ r_db r = d.
Proof.
  intros Hs Hsu Hd Hr. unfold sCase_proceed. rewrite Hs. simpl.
  rewrite Hsu, Hd, Hr. done.
Qed.

Lemma sCase_null_related_witness :
  let r := run [] scenario_known (sCase_proceed (JObject [("Subject", JString "S");
             ("Description", JString "D"); ("Related_Fridge__r", JNull)])) in
  response r = None ∧ r_trace r = [EvSettle (Thrown "TypeError")] ∧ r_db r = scenario_known.
Proof. apply (sCase_null_related _ (JString "S")); reflexivity. Defined.

Lemma query_string_get query k :
  query_string_shaped query = true →
  get query k = JUndefined ∨ (∃ s, get query k = JString s) ∨ (∃ xs, get query k = JArray xs).
Proof.
  destruct query as [| | | | | |ps]; try done. simpl. intros Hall.
  unfold get. simpl. destruct (assoc k ps) as [v|] eqn:E; simpl; [|by left].
  apply assoc_In, list_elem_of_In in E.
  pose proof (proj1 (forallb_forall _ ps) Hall (k, v) (proj1 (list_elem_of_In _ _) E)) as Hv.
  simpl in Hv. destruct v; try done; eauto.
Qed.

(** C20 (finding): a case sent as URL query parameters can never be
    created.  [url.parse] does not nest [Related_Fridge__r.DeviceId__c],
    so [Related_Fridge__r] is a string (or an array of strings), its
    [DeviceId__c] is [undefined], and every such request is rejected with
    400 before any store operation. *)
Theorem sCase_query_string_rejected query parsed fs d :
  query_string_shaped query = true → json_received parsed = JNull →
  let r := run fs d (sCase query parsed) in
  r_db r = d ∧ queries (r_trace r) = [] ∧ ∃ msg, response r = Some (400%Z, status_obj "error" msg).
Proof.
  intros Hq Hj. unfold sCase. rewrite promise_query by (by destruct query).
  unfold sCase_proceed. destruct query as [| | | | | |ps]; try done.
  simpl prop. simpl. case_match; [eauto|].
  destruct (query_string_get (JObject ps) "Related_Fridge__r" Hq) as [Hr|Hr];
    [rewrite Hr in *; simpl in *; rewrite orb_true_r in *; done|].
  rewrite prop_string_array_field; [eauto|exact Hr|done|done].
Qed.

Lemma sCase_query_string_rejected_witness :
  let q := JObject [("Subject", JString "S"); ("Description", JString "D");
                    ("Related_Fridge__r.DeviceId__c", JString "D9");
                    ("Related_Fridge__r", JString "D9")] in
  let r := run [] scenario_known (sCase q None) in
  r_db r = scenario_known ∧ queries (r_trace r) = [] ∧
  ∃ msg, response r = Some (400%Z, status_obj "error" msg).
Proof. intros q. apply sCase_query_string_rejected; reflexivity. Defined.

(** C17: whatever store operations fail, a case request whose values
    convert to text and that took a pooled connection gives it back. *)
Theorem sCase_releases query fs d :
  case_prints query = true → conn_returned (r_trace (run fs d (sCase_proceed query))) = true.
Proof.
  intros Hpr. destruct (case_prints_Some query Hpr) as [ins Hins].
  unfold case_prints in Hpr. apply andb_prop in Hpr as [_ Hrel].
  unfold sCase_proceed, sInsertCase. rewrite Hins. run_steps; try done;
  match goal with H : prop (get _ "Related_Fridge__r") "DeviceId__c" = Some ?j,
                  H' : to_js_string ?j = None |- _ =>
    rewrite (related_id_dev query j H) in Hrel; unfold printable in Hrel; by rewrite H' in Hrel end.
Qed.

Lemma sCase_releases_witness :
  conn_returned (r_trace (run [None; None; Some "disk full"] (mk_db [] [] 0)
    (sCase_proceed scenario_case))) = true.
Proof. apply sCase_releases. reflexivity. Defined.

(** [sCase_proceed] settles with a code on every submission that is an
    object whose converted values convert and whose [Related_Fridge__r] is
    not [null], whatever the store failures. *)
Lemma sCase_proceed_responds q fs d :
  q ≠ JUndefined → q ≠ JNull → case_prints q = true → get q "Related_Fridge__r" ≠ JNull →
  is_Some (response (run fs d (sCase_proceed q))).
Proof.
  intros Hu Hn Hpr Hrn. destruct (case_prints_Some q Hpr) as [ins Hins].
  unfold case_prints in Hpr. apply andb_prop in Hpr as [_ Hrel].
  unfold sCase_proceed, sInsertCase. rewrite Hins.
  destruct (prop q "Subject") as [subj|] eqn:Hs; [|by apply prop_None in Hs as [|]].
  destruct (_ || _) eqn:Hf; [by eexists|]. apply orb_false_iff in Hf as [_ Hf].
  destruct (prop (get q "Related_Fridge__r") "DeviceId__c") as [dev|] eqn:Hdev;
    [|apply prop_None in Hdev as [Hd|Hd]; [by rewrite Hd in Hf|done]].
  rewrite (related_id_dev q dev Hdev) in Hrel. apply printable_Some in Hrel as [id Hid].
  rewrite Hid. run_steps; by eexists.
Qed.

(** ** [sCase_proceed] as a handler of [promise] *)

(** The case INSERT of a run inserts the device id the SELECT used. *)
Ltac case_texts :=
  repeat match goal with
  | Hd : prop (get ?q "Related_Fridge__r") "DeviceId__c" = Some ?j, H : case_insert ?q = Some _ |- _ =>
      apply (case_insert_dev q j) in H as (?sj & ?de & ?id & -> & ?Hid); [|exact Hd]
  | H1 : to_js_string ?v = Some ?a, H2 : to_js_string ?v = Some ?b |- _ =>
      rewrite H1 in H2; injection H2 as H2; subst b
  end.

#[export] Instance sCase_proceed_spec : Proceed sCase_proceed.
Proof.
  split; intros q; [intros fs d..|]; unfold sCase_proceed, sInsertCase.
  - intros Hinv. run_steps; case_texts; inv_leaf Hinv.
  - run_steps; unfold cost_ok, count; simpl; lia.
  - repeat first
      [ progress simpl
      | progress split
      | progress intros
      | progress case_texts
      | case_bool_decide
      | case_match
      | match goal with |- _ ∈ _ => set_solver end
      | left; split; [done|eexists; reflexivity]
      | right; split; [by auto|eexists; reflexivity] ].
Qed.

End Case.
