(* ===== verification/Server.v ===== *)
(** The server as a whole (src/index.js lines 18-62): the dispatcher that
    routes a request by its path, the states the tables reach when requests
    are handled one after another, and the interleavings of requests
    handled concurrently.  Within one request the callbacks run in order;
    between requests Node interleaves them at every store operation, which
    [step_prog] and [run_sched] make explicit. *)

From stdpp Require Import relations.
From S2P Require Import Prelude JsValue Sql Store Pg Normalize Update Case.
Import JsValue Sql Store Pg Normalize Update Case.

Module Server.

(** A request as the ['end'] handler sees it: the pathname and query of
    [url.parse(req.url, true)] and the outcome of [JSON.parse] on the
    body. *)
Record request := mk_request {
  pathname : string;
  query : jsval;
  body : option jsval
}.

(** The [switch (parsedUrl['pathname'])] of lines 36-53. *)
Definition handle (req : request) : prog :=
  if String.eqb (pathname req) "/sobjects/Update" then sUpdate (query req) (body req)
  else if String.eqb (pathname req) "/sobjects/Case" then sCase (query req) (body req)
  else PSettle (Rejected 400 (status_obj "error" "Unsupported request")) PReturn.

(** ** Requests one after another *)

(** Handling one request, whatever store operations fail. *)
Inductive step : db → db → Prop :=
| step_request fs d req : step d (r_db (run fs d (handle req))).

Definition empty_db : db := mk_db [] [] 0.

Definition reachable (d : db) : Prop := rtc step empty_db d.

(** ** Requests interleaved *)

(** One atomic step of a callback program: the next callback runs until it
    issues a store operation or returns. *)
Definition step_prog (fs : list fault) (d : db) (p : prog)
    : option (list fault * db * event * prog) :=
  match p with
  | PReturn => None
  | PSettle o k => Some (fs, d, EvSettle o, k)
  | PConnect k =>
      match next_fault fs with
      | (Some m, fs') => Some (fs', d, EvConnect false, k (ConnError m))
      | (None, fs') => Some (fs', d, EvConnect true, k Connected)
      end
  | PQuery q k =>
      match next_fault fs with
      | (Some m, fs') => Some (fs', d, EvQuery q false, k (QueryError m))
      | (None, fs') => let '(d', rows) := exec q d in Some (fs', d', EvQuery q true, k (QueryOk rows))
      end
  | PRelease k => Some (fs, d, EvRelease, k)
  | PThrow err => Some (fs, d, EvThrow err, PReturn)
  end.

(** Several requests in flight: the scheduler picks, at each step, which
    request's next callback runs.  The result is the final tables and, for
    each request, its trace. *)
Fixpoint run_sched (sched : list nat) (fs : list fault) (d : db)
    (ths : list (prog * list event)) : db * list (prog * list event) :=
  match sched with
  | [] => (d, ths)
  | i :: sched' =>
      match ths !! i with
      | Some (p, tr) =>
          match step_prog fs d p with
          | Some (fs', d', ev, p') => run_sched sched' fs' d' (<[i := (p', tr ++ [ev])]> ths)
          | None => run_sched sched' fs d ths
          end
      | None => run_sched sched' fs d ths
      end
  end.

(** ** Lemmas on the invariant *)

(** Every request, whatever store operations fail, keeps the invariant. *)
Lemma handle_inv fs d req : server_inv d → server_inv (r_db (run fs d (handle req))).
Proof.
  intros Hinv. unfold handle, sUpdate, sCase.
  repeat case_match; [apply promise_inv..|]; done.
Qed.

(** Every request is [safe]. *)
Lemma handle_safe req : safe [] (handle req).
Proof.
  unfold handle, sUpdate, sCase. repeat case_match; [apply promise_safe..|].
  simpl. split; [|done]. right. split; [by left|by eexists].
Qed.

Lemma empty_db_inv : server_inv empty_db.
Proof. split; [constructor|intros c Hc; set_solver]. Qed.

(** C5: in every state the server reaches by handling requests one after
    another, from empty tables and whatever store operations fail, there
    is at most one fridge row per device id and every case references an
    existing device row (spec section 3). *)
Theorem reachable_inv d : reachable d → unique_ids d ∧ cases_ref d.
Proof.
  unfold reachable. intros Hreach. cut (server_inv d); [done|].
  revert d Hreach. apply rtc_ind_r; [apply empty_db_inv|].
  intros d1 d2 _ Hstep IH. invc Hstep. by apply handle_inv.
Qed.

Definition case_request : request :=
  mk_request "/sobjects/Case" (JObject []) (Some scenario_case).

Lemma reachable_inv_witness :
  unique_ids (r_db (run [] empty_db (handle case_request))) ∧
  cases_ref (r_db (run [] empty_db (handle case_request))).
Proof. apply reachable_inv. apply rtc_once. constructor. Defined.

(** ** The dispatcher *)

(** C23: the body takes precedence: a request whose body parses to a
    non-null value is handled the same whatever its URL query holds (the
    query is not merged in), on every path. *)
Theorem handle_body_precedence path q1 q2 v fs d :
  v ≠ JNull →
  run fs d (handle (mk_request path q1 (Some v))) = run fs d (handle (mk_request path q2 (Some v))).
Proof.
  intros Hv. unfold handle, sUpdate, sCase. simpl.
  by rewrite !(promise_body _ v) by done.
Qed.

Lemma handle_body_precedence_witness :
  run [] empty_db (handle (mk_request "/sobjects/Case" (JObject [("Subject", JString "Q")])
                             (Some scenario_case))) =
  run [] empty_db (handle (mk_request "/sobjects/Case" (JObject []) (Some scenario_case))).
Proof. apply handle_body_precedence. discriminate. Defined.

(** C24: any other path is answered 400 "Unsupported request" without
    touching the store. *)
Theorem handle_unsupported req fs d :
  pathname req ≠ "/sobjects/Update" → pathname req ≠ "/sobjects/Case" →
  run fs d (handle req) =
    mk_result fs d [EvSettle (Rejected 400 (status_obj "error" "Unsupported request"))].
Proof.
  intros H1 H2. unfold handle.
  by rewrite (proj2 (String.eqb_neq _ _) H1), (proj2 (String.eqb_neq _ _) H2).
Qed.

Lemma handle_unsupported_witness :
  run [] empty_db (handle (mk_request "/sobjects/Account" (JObject []) None)) =
    mk_result [] empty_db [EvSettle (Rejected 400 (status_obj "error" "Unsupported request"))].
Proof. apply handle_unsupported; discriminate. Defined.

(** What the handler of [path] needs of the value it is handed to settle
    with a code: the values its templates splice in convert to text, and
    for a case, [Related_Fridge__r] is not [null]. *)
Definition answerable (path : string) (v : jsval) : bool :=
  if String.eqb path "/sobjects/Update" then update_prints v
  else if String.eqb path "/sobjects/Case" then
    case_prints v && negb (is_null (get v "Related_Fridge__r"))
  else true.

(** C25: every request is answered, whatever the store failures, when the
    value [promise] hands its handler is [answerable]: the Promise settles
    with a code, so the dispatcher writes exactly one response.  The
    exceptions are the ones [Update.sUpdate_unprintable_id],
    [Case.sCase_unprintable_text] and [Case.sCase_null_related] exhibit.
    ([url.parse] and [JSON.parse] never yield [undefined].) *)
Theorem handle_responds req fs d :
  query req ≠ JUndefined → body req ≠ Some JUndefined →
  answerable (pathname req) (submitted (query req) (body req)) = true →
  is_Some (response (run fs d (handle req))).
Proof.
  intros Hq Hb. unfold handle, sUpdate, sCase, answerable. rewrite !promise_submitted.
  assert (submitted (query req) (body req) ≠ JUndefined) as Hu.
  { unfold submitted. destruct (body req) as [[]|]; simpl; done. }
  destruct (is_null (submitted _ _)) eqn:Hn; [by repeat case_match; eexists|].
  assert (submitted (query req) (body req) ≠ JNull) as Hn' by (by intros Hs; rewrite Hs in Hn).
  destruct (String.eqb _ "/sobjects/Update"); [by apply sUpdate_proceed_responds|].
  destruct (String.eqb _ "/sobjects/Case"); [|by eexists].
  intros [Hpr Hr]%andb_prop. apply sCase_proceed_responds; try done.
  intros Hr'. by rewrite Hr' in Hr.
Qed.

Lemma handle_responds_witness :
  is_Some (response (run [None; Some "timeout"] empty_db (handle case_request))).
Proof. apply handle_responds; [discriminate|discriminate|reflexivity]. Defined.

(** C34: a request emits at most six events, costs the pool at most one
    connection and the store at most three statements, and calls [done()]
    at most once, whatever its input and whatever fails.  The dispatcher
    gets this from the [Proceed] contract its two handlers fulfil. *)
Theorem handle_resource_bounds req fs d :
  let tr := r_trace (run fs d (handle req)) in
  length tr ≤ 6 ∧ length (queries tr) ≤ 3 ∧ count is_connect tr ≤ 1 ∧ count is_release tr ≤ 1.
Proof.
  unfold handle, sUpdate, sCase. repeat case_match; [apply promise_cost..|].
  unfold count. simpl. lia.
Qed.

(** ** Concurrency *)

(** C7: the existence check and the INSERT of [sUpdate] are two store
    operations, and nothing orders two requests between them.  Two valid
    submissions for the same device id, when no row has that id, whose
    callbacks interleave (both SELECTs answered before either INSERT), leave
    two rows with that id: uniqueness is lost (spec sections 5 and 9). *)
Theorem concurrent_inserts_duplicate q1 q2 dev1 dev2 id d :
  prop q1 "deviceId__c" = Some dev1 → is_undefined dev1 = false → sUpdate_changes q1 ≠ [] →
  prop q2 "deviceId__c" = Some dev2 → is_undefined dev2 = false → sUpdate_changes q2 ≠ [] →
  to_js_string dev1 = Some id → to_js_string dev2 = Some id →
  columns_print q1 = true → columns_print q2 = true → select_rows id d = [] →
  let d' := (run_sched [0; 1; 0; 1; 0; 1; 0; 1; 0; 1] [] d
               [(sUpdate_proceed q1, []); (sUpdate_proceed q2, [])]).1 in
  length (select_rows id d') = 2 ∧ ¬ unique_ids d'.
Proof.
  intros Hq1 Hd1 Hc1 Hq2 Hd2 Hc2 Hid1 Hid2 Hp1 Hp2 Hsel. unfold sUpdate_proceed.
  destruct (sUpdate_insert_Some q1 id Hp1) as [ins1 Hins1].
  destruct (sUpdate_insert_Some q2 id Hp2) as [ins2 Hins2].
  rewrite Hq1, Hq2, Hd1, Hd2, Hid1, Hid2, Hins1, Hins2.
  apply sUpdate_insert_inv in Hins1 as (dr1 & tp1 & hm1 & t1 & -> & _).
  apply sUpdate_insert_inv in Hins2 as (dr2 & tp2 & hm2 & t2 & -> & _).
  rewrite !bool_decide_true
    by (destruct (sUpdate_changes q1), (sUpdate_changes q2); simpl in *; [done..|lia]).
  simpl. rewrite length_map, Hsel. simpl.
  unfold select_rows, unique_ids, device_ids. simpl. rewrite !filter_app.
  fold (select_rows id d). rewrite Hsel. simpl.
  rewrite !filter_cons_True, !filter_nil by done. split; [done|].
  rewrite !map_app. simpl. intros Hnd.
  apply NoDup_app in Hnd as (_ & Hdisj & _).
  apply (Hdisj id); set_solver.
Qed.

Lemma concurrent_inserts_duplicate_witness :
  let up (n : Z) := sUpdate_proceed (JObject [("deviceId__c", JString "D1");
                                              ("temperature__c", JNumber n)]) in
  let d' := (run_sched [0; 1; 0; 1; 0; 1; 0; 1; 0; 1] [] empty_db
               [(up 1%Z, []); (up 2%Z, [])]).1 in
  length (select_rows "D1" d') = 2 ∧ ¬ unique_ids d'.
Proof.
  intros up. apply (concurrent_inserts_duplicate _ _ (JString "D1") (JString "D1") "D1");
    vm_compute; done.
Defined.

End Server.
