(* ===== verification/Statements.v ===== *)
(** The statements the handlers send, read as the store reads their
    text.  [Store.exec] executes a statement as data; the store executes
    its text.  The two agree when the text reads back as the statement
    ([SqlParse.parse_sql_text]), and that holds for every statement
    [sUpdate] and [sCase] send whenever the values they splice in carry no
    quote and the numeric columns hold numbers: then no submission can
    change what a statement means.  The injection theorem shows a quote
    in a value making the store read another statement. *)

From S2P Require Import Prelude JsValue Sql SqlParse Store Pg Normalize Update Case Server.
Import JsValue Sql SqlParse Store Pg Normalize Update Case Server.

Module Statements.

(** The text [`${v}`] splices in has no quote (when the conversion
    throws, nothing is sent). *)
Definition text_ok (v : jsval) : bool :=
  match to_js_string v with Some s => quote_free s | None => true end.

Definition numeric_or_undefined (v : jsval) : bool :=
  match v with JNumber _ | JUndefined => true | _ => false end.

(** The fields [sUpdate] reads (lines 80-125). *)
Definition update_fields_ok (q : jsval) : bool :=
  text_ok (get q "deviceId__c") && forallb (λ c, text_ok (get q (column_name c))) columns &&
  numeric_or_undefined (get q "temperature__c") && numeric_or_undefined (get q "humidity__c").

(** The fields [sCase] and [sInsertCase] read (lines 169-249). *)
Definition case_fields_ok (q : jsval) : bool :=
  text_ok (get q "Subject") && text_ok (get q "Description") && text_ok (related_id q).

Definition submission_ok (v : jsval) : bool := update_fields_ok v && case_fields_ok v.

Definition reads_back (s : sql) : Prop := parse_sql (sql_text s) = Some s.

(** ** Numbers are bare words *)

Lemma pretty_N_char_word x : word_char (pretty_N_char x) = true.
Proof. unfold pretty_N_char. by repeat case_match. Qed.

Lemma pretty_N_go_word x s :
  all_chars word_char s = true → all_chars word_char (pretty_N_go x s) = true.
Proof.
  revert s. induction (N.lt_wf_0 x) as [x _ IH]; intros s Hs.
  destruct (decide (x = 0)%N) as [->|Hx]; [by rewrite pretty_N_go_0|].
  rewrite pretty_N_go_step by lia. apply IH; [apply N.div_lt; lia|].
  simpl. by rewrite pretty_N_char_word, Hs.
Qed.

Lemma pretty_N_bare (n : N) : bare_ok (pretty n) = true.
Proof.
  unfold bare_ok. apply andb_true_intro. split.
  - apply bool_decide_eq_true. intros He.
    pose proof (index_key_head (N.to_nat n)) as Hh. unfold index_key in Hh.
    rewrite N2Nat.id, He in Hh. done.
  - unfold pretty, pretty_N. case_decide; [done|]. by apply pretty_N_go_word.
Qed.

Lemma pretty_Z_bare (n : Z) : bare_ok (pretty n) = true.
Proof.
  destruct n as [|p|p]; [done|apply (pretty_N_bare (N.pos p))|].
  pose proof (pretty_N_bare (N.pos p)) as Hp. unfold bare_ok in *.
  apply andb_prop in Hp as [_ Hw]. apply andb_true_intro. split.
  - apply bool_decide_eq_true. done.
  - change (word_char "-" && all_chars word_char (pretty (N.pos p)) = true). by rewrite Hw.
Qed.

Lemma word_quote_free s : all_chars word_char s = true → quote_free s = true.
Proof.
  unfold quote_free. induction s as [|c s IH]; [done|]. cbn [all_chars].
  intros [Hc Hs]%andb_prop. destruct (word_char_spec c Hc) as (-> & _ & _). simpl. by apply IH.
Qed.

Lemma bare_quote_free s : bare_ok s = true → quote_free s = true.
Proof. unfold bare_ok. intros [_ Hw]%andb_prop. by apply word_quote_free. Qed.

(** ** Each statement *)

Lemma change_lit_ok v l : change_lit v = Some l → text_ok v = true → lit_ok l = true.
Proof.
  unfold change_lit, text_ok. intros Hl Hv.
  destruct v; simpl in Hl; simplify_eq; simpl; [apply pretty_Z_bare|done].
Qed.

Lemma or_default_text v dflt : text_ok v = true → text_ok dflt = true → text_ok (or_default v dflt) = true.
Proof. unfold or_default. by destruct (is_undefined v). Qed.

Lemma or_default_number v n s :
  numeric_or_undefined v = true → to_js_string (or_default v (JNumber n)) = Some s → bare_ok s = true.
Proof. destruct v; simpl; try done; intros _ [= <-]; apply pretty_Z_bare. Qed.

Lemma text_ok_Some v s : text_ok v = true → to_js_string v = Some s → quote_free s = true.
Proof. unfold text_ok. intros H E. by rewrite E in H. Qed.

Lemma sUpdate_changes_ok q :
  forallb (λ c, text_ok (get q (column_name c))) columns = true →
  forallb (λ ch, lit_ok ch.2) (sUpdate_changes q) = true.
Proof.
  intros Hcols. apply forallb_forall. intros [c l] Hin%list_elem_of_In.
  apply elem_of_sUpdate_changes in Hin as [_ Hl]. apply (change_lit_ok _ _ Hl).
  rewrite forallb_forall in Hcols. apply Hcols. destruct c; simpl; tauto.
Qed.

Lemma sUpdate_insert_ok q id ins :
  quote_free id = true → forallb (λ c, text_ok (get q (column_name c))) columns = true →
  numeric_or_undefined (get q "temperature__c") = true →
  numeric_or_undefined (get q "humidity__c") = true →
  sUpdate_insert q id = Some ins → sql_ok ins = true.
Proof.
  intros Hid Hcols Ht Hh. simpl in Hcols.
  repeat match goal with H : (_ && _) = true |- _ => apply andb_prop in H as [? ?] end.
  unfold sUpdate_insert.
  destruct (to_js_string (or_default (get q "door__c") _)) as [dr|] eqn:Edr; [|done].
  destruct (to_js_string (or_default (get q "temperature__c") _)) as [tp|] eqn:Etp; [|done].
  destruct (to_js_string (or_default (get q "humidity__c") _)) as [hm|] eqn:Ehm; [|done].
  destruct (to_js_string (or_default (get q "ts__c") _)) as [t|] eqn:Et; [|done].
  simpl. intros [= <-]. simpl.
  rewrite Hid, (text_ok_Some _ _ (or_default_text _ (JString "closed") H Logic.eq_refl) Edr),
    (text_ok_Some _ _ (or_default_text _ (JString "2000-01-01T00:00:00Z") H2 Logic.eq_refl) Et),
    (or_default_number _ _ _ Ht Etp), (or_default_number _ _ _ Hh Ehm).
  done.
Qed.

Lemma sUpdate_reads_back q : update_fields_ok q = true → all_queries reads_back (sUpdate_proceed q).
Proof.
  unfold update_fields_ok. intros Hok.
  repeat match goal with H : (_ && _) = true |- _ => apply andb_prop in H as [? ?] end.
  unfold sUpdate_proceed. destruct (prop q "deviceId__c") as [dev|] eqn:Hdev; simpl; [|done].
  destruct (is_undefined dev); simpl; [done|]. intros [m|]; simpl; [done|].
  case_bool_decide as Hch; simpl; [|done].
  destruct (to_js_string dev) as [id|] eqn:Hid; simpl; [|done].
  assert (quote_free id = true) as Hd.
  { apply (text_ok_Some dev); [|done]. by unfold get in *; rewrite Hdev in *. }
  split; [by apply parse_sql_text|].
  intros [m|rows]; simpl; [done|].
  destruct (if bool_decide _ then _ else _) as [stmt|] eqn:Hstmt; simpl; [|done].
  split; [|by intros []].
  apply parse_sql_text. case_bool_decide; simplify_eq.
  - simpl. rewrite sUpdate_changes_ok, Hd by done. rewrite bool_decide_true; [done|].
    destruct (sUpdate_changes q); simpl in *; [lia|done].
  - by apply (sUpdate_insert_ok q id).
Qed.

Lemma case_insert_sql_ok q ins : case_fields_ok q = true → case_insert q = Some ins → sql_ok ins = true.
Proof.
  unfold case_fields_ok, case_insert. intros Hok.
  repeat match goal with H : (_ && _) = true |- _ => apply andb_prop in H as [? ?] end.
  destruct (to_js_string (get q "Subject")) as [sj|] eqn:E1; [|done].
  destruct (to_js_string (get q "Description")) as [de|] eqn:E2; [|done].
  destruct (to_js_string (related_id q)) as [id|] eqn:E3; [|done].
  simpl. intros [= <-]. simpl.
  by rewrite (text_ok_Some _ _ H E1), (text_ok_Some _ _ H1 E2), (text_ok_Some _ _ H0 E3).
Qed.

Lemma sCase_reads_back q : case_fields_ok q = true → all_queries reads_back (sCase_proceed q).
Proof.
  intros Hok.
  assert (all_queries reads_back (sInsertCase q)) as Hins.
  { unfold sInsertCase. destruct (case_insert q) as [ins|] eqn:E; simpl; [|done].
    split; [apply parse_sql_text; exact (case_insert_sql_ok q ins Hok E)|].
    by intros [m|?]. }
  unfold case_fields_ok in Hok.
  repeat match goal with H : (_ && _) = true |- _ => apply andb_prop in H as [? ?] end.
  unfold sCase_proceed. destruct (prop q "Subject") as [subj|]; simpl; [|done].
  destruct (_ || _); simpl; [done|].
  destruct (prop (get q "Related_Fridge__r") "DeviceId__c") as [dev|] eqn:Hdev; simpl; [|done].
  destruct (is_undefined dev); simpl; [done|]. intros [m|]; simpl; [done|].
  destruct (to_js_string dev) as [id|] eqn:Hid; simpl; [|done].
  assert (quote_free id = true) as Hd.
  { apply (text_ok_Some dev); [|done]. by rewrite <- (related_id_dev q dev Hdev). }
  split; [by apply parse_sql_text|]. intros [m|rows]; simpl; [done|].
  case_bool_decide; simpl; [exact Hins|].
  split; [apply parse_sql_text; simpl; by rewrite Hd|].
  intros [m|?]; simpl; [done|exact Hins].
Qed.

(** ** The dispatcher *)

(** C33: when the values a request submits (in its body or its query)
    splice in no quote and its temperature and humidity are numbers or
    absent, every statement the server sends for it, whatever the store
    failures, reads back as the statement the model executes: the text
    means what the handler built (spec section 9 asks for this; with a
    quote it fails, see [sUpdate_sql_injection] below). *)
Theorem handle_statements_read_back req fs d :
  submission_ok (query req) = true → submission_ok (json_received (body req)) = true →
  ∀ s, s ∈ queries (r_trace (run fs d (handle req))) → parse_sql (sql_text s) = Some s.
Proof.
  unfold submission_ok. intros [Hqu Hqc]%andb_prop [Hbu Hbc]%andb_prop.
  apply all_queries_run. unfold handle, sUpdate, sCase, promise.
  destruct (String.eqb _ "/sobjects/Update"); [|destruct (String.eqb _ "/sobjects/Case")];
    simpl; try done;
    destruct (negb (is_null (json_received (body req)))); try destruct (negb (is_null (query req)));
    try done; by apply sUpdate_reads_back || apply sCase_reads_back.
Qed.

Lemma handle_statements_read_back_witness :
  Forall (λ s, parse_sql (sql_text s) = Some s)
    (queries (r_trace (run [] empty_db (handle case_request)))).
Proof.
  apply Forall_forall. intros s Hs.
  apply (handle_statements_read_back case_request [] empty_db); [vm_compute; reflexivity..|exact Hs].
Defined.

(** ** Injection *)

(** C22 (finding): values are spliced into the SQL text unescaped, so a
    submission decides what the store executes.  For every device that has
    a row and all texts [a], [b] and ids without a quote, the UPDATE
    [sUpdate] sends for the door value [a',temperature__c='b] reads back as
    an UPDATE that sets the door to [a] and the temperature to [b]: the
    handler meant to change the door only, and the statement it sent
    does not read back as itself. *)
Theorem sUpdate_sql_injection id a b d :
  quote_free id = true → quote_free a = true → quote_free b = true → select_rows id d ≠ [] →
  let v := a +:+ "',temperature__c='" +:+ b in
  let sent := UpdateFridge [(door__c, Quoted v)] id in
  queries (r_trace (run [] d (sUpdate_proceed
    (JObject [("deviceId__c", JString id); ("door__c", JString v)])))) = [SelectFridge id; sent] ∧
  parse_sql (sql_text sent) = Some (UpdateFridge [(door__c, Quoted a); (temperature__c, Quoted b)] id) ∧
  ¬ reads_back sent.
Proof.
  intros Hid Ha Hb Hsel v sent.
  enough (parse_sql (sql_text sent) =
          Some (UpdateFridge [(door__c, Quoted a); (temperature__c, Quoted b)] id)) as Hp.
  { split_and!; [|exact Hp|unfold reads_back; rewrite Hp; by intros [=]].
    rewrite (run_sUpdate_ok _ (JString id) id) by done.
    rewrite bool_decide_false by done. reflexivity. }
  assert (sql_text sent =
          sql_text (UpdateFridge [(door__c, Quoted a); (temperature__c, Quoted b)] id)) as ->.
  { unfold sent, v, sql_text, change_text, quote. cbn [join_comma map column_name fst snd].
    rewrite <- !string_app_assoc. reflexivity. }
  apply parse_update_text; [done| |done]. simpl. by rewrite Ha, Hb.
Qed.

Lemma sUpdate_sql_injection_witness :
  let v := "open" +:+ "',temperature__c='" +:+ "99" in
  let sent := UpdateFridge [(door__c, Quoted v)] "D1" in
  queries (r_trace (run [] scenario_existing (sUpdate_proceed
    (JObject [("deviceId__c", JString "D1"); ("door__c", JString v)])))) = [SelectFridge "D1"; sent] ∧
  parse_sql (sql_text sent) =
    Some (UpdateFridge [(door__c, Quoted "open"); (temperature__c, Quoted "99")] "D1") ∧
  ¬ reads_back sent.
Proof. apply sUpdate_sql_injection; [reflexivity..|discriminate]. Defined.

End Statements.
