(* ===== verification/Abstract.v ===== *)
(** The contract of the device table (spec sections 3, 4.2 and 4.3) as a
    finite map from device id to row, and the refinement of the handlers
    to it: on tables with one row per id, the list of rows [sUpdate] and
    [sCase] leave behind, read as a map, is the map the contract's
    [upsert] and [ensure] compute. *)

From stdpp Require Import gmap.
From S2P Require Import Prelude JsValue Sql Store Pg Normalize Update Case.
Import JsValue Sql Store Pg Normalize Update Case.

Module Abstract.

(** The fridge table read as a map keyed by [deviceId__c]. *)
Definition abs (rows : list fridge_row) : gmap string fridge_row :=
  list_to_map ((λ r, (deviceId r, r)) <$> rows).

(** Spec 4.2: the row of [id] becomes the submitted values over the row
    it had, or over the documented defaults when it had none. *)
Definition upsert (query : jsval) (id : string) (m : gmap string fridge_row)
    : gmap string fridge_row :=
  <[id := submitted_row query (default (default_row id) (m !! id))]> m.

(** Spec 4.3 step 2: a device that has no row gets the default row. *)
Definition ensure (id : string) (m : gmap string fridge_row) : gmap string fridge_row :=
  match m !! id with Some _ => m | None => <[id := default_row id]> m end.

(** ** Lemmas on [abs] *)

Lemma abs_keys rows : ((λ r, (deviceId r, r)) <$> rows).*1 = map deviceId rows.
Proof. rewrite <- list_fmap_compose. done. Qed.

Lemma abs_lookup_key rows k r : abs rows !! k = Some r → deviceId r = k.
Proof.
  intros H. apply elem_of_list_to_map_2, list_elem_of_fmap in H as (r' & Heq & _).
  by injection Heq as -> ->.
Qed.

Lemma abs_lookup_None rows k : k ∉ map deviceId rows → abs rows !! k = None.
Proof. intros Hk. apply not_elem_of_list_to_map_1. by rewrite abs_keys. Qed.

Lemma abs_lookup_Some rows k :
  NoDup (map deviceId rows) → k ∈ map deviceId rows → ∃ r, abs rows !! k = Some r.
Proof.
  intros Hnd Hk. apply list_elem_of_fmap in Hk as (r & -> & Hr).
  exists r. apply elem_of_list_to_map_1; [by rewrite abs_keys|].
  apply list_elem_of_fmap. eauto.
Qed.

Lemma abs_snoc rows r :
  deviceId r ∉ map deviceId rows → abs (rows ++ [r]) = <[deviceId r := r]> (abs rows).
Proof.
  intros Hn. unfold abs. rewrite fmap_app. simpl.
  apply list_to_map_snoc. by rewrite abs_keys.
Qed.

(** A change of every row that keeps its id is a change of every value of
    the map. *)
Lemma abs_map rows (f : fridge_row → fridge_row) :
  (∀ r, deviceId (f r) = deviceId r) → abs (map f rows) = f <$> abs rows.
Proof.
  intros Hf. unfold abs. rewrite <- list_to_map_fmap. f_equal.
  rewrite <- list_fmap_compose. change (map f rows) with (f <$> rows).
  rewrite <- list_fmap_compose. apply list_fmap_ext. intros i r _. simpl. by rewrite Hf.
Qed.

Lemma present_of_select rows id r l :
  filter (λ r, deviceId r = id) rows = r :: l → id ∈ map deviceId rows.
Proof.
  intros Hsel. destruct (decide (id ∈ map deviceId rows)) as [|Hn]; [done|].
  apply (select_rows_nil id (mk_db rows [] 0)) in Hn. unfold select_rows in Hn.
  simpl in Hn. congruence.
Qed.

(** ** Refinement *)

(** C11: [sUpdate] implements the contract's upsert.  On tables with one
    row per device id, a valid, well-typed submission leaves a fridge table
    that, read as a map, is [upsert] of the map before, and leaves the case
    table alone. *)
Theorem sUpdate_refines query dev id d :
  unique_ids d → prop query "deviceId__c" = Some dev → is_undefined dev = false →
  to_js_string dev = Some id → sUpdate_changes query ≠ [] → well_typed query = true →
  let d' := r_db (run [] d (sUpdate_proceed query)) in
  abs (fridge d') = upsert query id (abs (fridge d)) ∧ cases d' = cases d.
Proof.
  intros Hu Hq Hdev Hid Hch Hwt. rewrite (run_sUpdate_ok query dev id) by done.
  case_bool_decide as Hsel.
  - destruct (sUpdate_insert_row query id d Hwt) as (ins & -> & Hins). simpl.
    rewrite Hins. simpl. split; [|done].
    apply select_rows_nil in Hsel. unfold upsert.
    rewrite (abs_lookup_None (fridge d)) by exact Hsel. simpl.
    rewrite abs_snoc; [done|exact Hsel].
  - simpl. split; [|done].
    rewrite abs_map by (intros r; case_decide; by autorewrite with ingest_rw).
    destruct (decide (id ∈ device_ids d)) as [Hin|Hn];
      [|by apply select_rows_nil in Hn].
    destruct (abs_lookup_Some (fridge d) _ Hu Hin) as [r0 Hr0].
    unfold upsert. rewrite Hr0. simpl. apply map_eq. intros k.
    rewrite lookup_fmap, lookup_insert. case_decide as Hk.
    + subst k. rewrite Hr0. simpl.
      rewrite decide_True by (by apply abs_lookup_key in Hr0).
      by rewrite apply_sUpdate_changes.
    + destruct (abs (fridge d) !! k) as [r|] eqn:E; simpl; [|done].
      apply abs_lookup_key in E. rewrite decide_False by congruence. done.
Qed.

Lemma sUpdate_refines_witness :
  let q := JObject [("deviceId__c", JString "D1"); ("temperature__c", JNumber 25)] in
  let d' := r_db (run [] scenario_existing (sUpdate_proceed q)) in
  abs (fridge d') = upsert q "D1" (abs (fridge scenario_existing)) ∧
  cases d' = cases scenario_existing.
Proof.
  intros q. apply (sUpdate_refines q (JString "D1") "D1"); vm_compute; try done.
  constructor; [set_solver|constructor].
Defined.

(** C12: [sCase] implements the contract's two steps.  On tables with one
    row per device id, a valid case leaves a fridge table that, read as a
    map, is [ensure] of the map before (the device gets its default row if
    it had none), and a case table extended by exactly the new case. *)
Theorem sCase_refines query subj dev id sj de d :
  unique_ids d → prop query "Subject" = Some subj →
  (is_undefined subj || is_undefined (get query "Description")
   || is_undefined (get query "Related_Fridge__r")) = false →
  prop (get query "Related_Fridge__r") "DeviceId__c" = Some dev → is_undefined dev = false →
  to_js_string dev = Some id → to_js_string (get query "Subject") = Some sj →
  to_js_string (get query "Description") = Some de →
  let d' := r_db (run [] d (sCase_proceed query)) in
  abs (fridge d') = ensure id (abs (fridge d)) ∧
  cases d' = cases d ++ [mk_case_row (next_id d) sj de id].
Proof.
  intros Hu Hsubj Hfields Hdev Hdef Hid Hsj Hde. case_valid Hsubj Hfields Hdev Hdef Hid. simpl.
  unfold sInsertCase. rewrite (case_insert_ok query dev id Hdev Hid sj de Hsj Hde).
  unfold ensure. destruct (select_rows id d) as [|r l] eqn:Hsel; simpl.
  - apply select_rows_nil in Hsel. rewrite (abs_lookup_None (fridge d)) by exact Hsel.
    split; [|done]. rewrite abs_snoc; [done|exact Hsel].
  - apply present_of_select in Hsel.
    destruct (abs_lookup_Some (fridge d) _ Hu Hsel) as [r0 ->]. done.
Qed.

Lemma sCase_refines_witness :
  let d' := r_db (run [] scenario_known (sCase_proceed scenario_case)) in
  abs (fridge d') = ensure "D9" (abs (fridge scenario_known)) ∧
  cases d' = cases scenario_known ++ [mk_case_row 3 "S" "D" "D9"].
Proof.
  apply (sCase_refines scenario_case (JString "S") (JString "D9") "D9" "S" "D"); try reflexivity.
  constructor; [set_solver|constructor].
Defined.

End Abstract.
