(* ===== verification/Http.v ===== *)
(** The HTTP exchange of one request (src/index.js lines 20-58): the
    request listener that [http.createServer] calls keeps the body received
    so far, registers handlers for the request's ['data'], ['end'] and
    ['aborted'] events, and writes the response with [response(code,
    data)].  The exchange is a state ([exchange]: the body text, the calls
    made on [res], the store and the fault oracle) and each event a
    transition ([dispatch]); [feed] runs a whole event sequence.
    [JSON.parse] and [url.parse] are library calls: the Section [Listener]
    takes them as variables. *)

From S2P Require Import Prelude JsValue Sql Store Pg Normalize Update Case Server.
Import JsValue Sql Store Pg Normalize Update Case Server.

Module Http.

(** The events Node emits on the request. *)
Inductive req_event :=
| ReqData (chunk : string)
| ReqEnd
| ReqAborted.

(** The calls the closures make on [res], in order. *)
Inductive res_call :=
| WriteHead (code : Z) (headers : list (string * string))  (** [res.writeHead] *)
| Write (data : jsval)                   (** [res.write(JSON.stringify(data))] *)
| End.                                   (** [res.end()] *)

Definition json_headers : list (string * string) :=
  [("Content-Type", "application/json"); ("Cache-Control", "no-cache")].

(** [let response = function(code, data) {...}] (lines 26-33). *)
Definition respond (code : Z) (data : jsval) : list res_call :=
  [WriteHead code json_headers; Write data; End].

(** [.then((result) => response(200, result)).catch((error) =>
    response(error.code, error.obj))] (lines 38-40, 43-45), on the first
    settlement of the handler's Promise as [Pg.response] reads it: an
    error with no [code] makes [res.writeHead(undefined, ...)] throw, so
    nothing is written. *)
Definition from_settle (o : option (Z * jsval)) : list res_call :=
  match o with Some (code, data) => respond code data | None => [] end.

Record exchange := mk_exchange {
  received : string;        (** [let received = ""] *)
  res_calls : list res_call;
  ex_faults : list fault;
  ex_store : db
}.

(** [let received = ""] (line 21), before any event. *)
Definition init_exchange (fs : list fault) (d : db) : exchange := mk_exchange "" [] fs d.

Section Listener.

(** [JSON.parse] ([None] when it throws) and [url.parse(req.url, true)]
    reduced to the pathname and query of the request's URL. *)
Variable json_parse : string → option jsval.
Variable parsed_url : string * jsval.

(** [req.on('data', (chunk) => { received += chunk; })] (lines 22-24). *)
Definition on_data (chunk : string) (x : exchange) : exchange :=
  mk_exchange (received x +:+ chunk) (res_calls x) (ex_faults x) (ex_store x).

(** [req.on('end', ...)] (lines 25-54): build the request, run the
    dispatcher's handler on the store, and write what its Promise settles
    to. *)
Definition on_end (x : exchange) : exchange :=
  let '(path, q) := parsed_url in
  let r := run (ex_faults x) (ex_store x) (handle (mk_request path q (json_parse (received x)))) in
  mk_exchange (received x) (res_calls x ++ from_settle (response r)) (r_faults r) (r_db r).

(** [req.on('aborted', () => { res.end(); })] (lines 55-57). *)
Definition on_aborted (x : exchange) : exchange :=
  mk_exchange (received x) (res_calls x ++ [End]) (ex_faults x) (ex_store x).

Definition dispatch (x : exchange) (ev : req_event) : exchange :=
  match ev with
  | ReqData chunk => on_data chunk x
  | ReqEnd => on_end x
  | ReqAborted => on_aborted x
  end.

Definition feed (evs : list req_event) (x : exchange) : exchange := foldl dispatch x evs.

End Listener.

(** ** Lemmas *)

Lemma feed_data jp pu chunks x :
  feed jp pu (map ReqData chunks) x =
    mk_exchange (received x +:+ foldr String.append "" chunks) (res_calls x) (ex_faults x) (ex_store x).
Proof.
  revert x. induction chunks as [|c chunks IH]; intros [s cs fs d].
  - simpl. by rewrite string_app_nil_r.
  - change (feed jp pu (map ReqData (c :: chunks)) (mk_exchange s cs fs d))
      with (feed jp pu (map ReqData chunks) (mk_exchange (s +:+ c) cs fs d)).
    rewrite IH. simpl. by rewrite string_app_assoc.
Qed.

Lemma feed_app jp pu evs1 evs2 x : feed jp pu (evs1 ++ evs2) x = feed jp pu evs2 (feed jp pu evs1 x).
Proof. unfold feed. by rewrite foldl_app. Qed.

(** ** The response *)

(** Every response the dispatcher writes has the shape of spec sections 6
    and 7, whatever the request and the store failures. *)
Lemma handle_response_shape req fs d code obj :
  response (run fs d (handle req)) = Some (code, obj) → response_shape code obj.
Proof. apply (safe_response []), handle_safe. Qed.

(** The body is the concatenation of the chunks. *)
Definition body_of (chunks : list string) : string := foldr String.append "" chunks.

Lemma feed_end jp path q chunks fs d :
  feed jp (path, q) (map ReqData chunks ++ [ReqEnd]) (init_exchange fs d) =
    let r := run fs d (handle (mk_request path q (jp (body_of chunks)))) in
    mk_exchange (body_of chunks) (from_settle (response r)) (r_faults r) (r_db r).
Proof. by rewrite feed_app, feed_data. Qed.

(** ** The exchange *)

(** C27: a request whose body arrives completely is handled once on the
    concatenation of its chunks: the store and the oracle end as the
    dispatcher's run leaves them, and [res] receives nothing when the
    Promise settles without a code, and otherwise exactly
    [writeHead(code, JSON headers)], [write(obj)], [end()], with a code and
    an object of the shape of spec sections 6 and 7. *)
Theorem exchange_end jp path q chunks fs d :
  let x := feed jp (path, q) (map ReqData chunks ++ [ReqEnd]) (init_exchange fs d) in
  let r := run fs d (handle (mk_request path q (jp (body_of chunks)))) in
  received x = body_of chunks ∧ ex_store x = r_db r ∧ ex_faults x = r_faults r ∧
  ((response r = None ∧ res_calls x = []) ∨
   ∃ code obj, response r = Some (code, obj) ∧
     res_calls x = [WriteHead code json_headers; Write obj; End] ∧ response_shape code obj).
Proof.
  simpl. rewrite feed_end. simpl. split_and!; [done..|].
  destruct (response _) as [[code obj]|] eqn:E; [right|by left].
  exists code, obj. split_and!; [done|done|]. by apply handle_response_shape in E.
Qed.

(** C28: a request aborted before its body is complete causes no store
    operation at all (the handler only starts on ['end']): the store and
    the oracle are untouched, and the only call on [res] is [res.end()],
    with no status and no body (spec section 5, cancellation). *)
Theorem exchange_aborted jp pu chunks fs d :
  feed jp pu (map ReqData chunks ++ [ReqAborted]) (init_exchange fs d) =
    mk_exchange (body_of chunks) [End] fs d.
Proof. by rewrite feed_app, feed_data. Qed.

End Http.
