(* ===== verification/Concurrent.v ===== *)
(** The server with many requests in flight (src/index.js lines 20-58 for
    each connection, the handlers of lines 71-270 for each request's
    callbacks): a step relation [sstep] on the store shared by all
    connections and the state of each connection.  At each step one
    connection moves: a new request arrives, a chunk of its body arrives,
    its body ends (the dispatcher starts its handler), it is aborted, or
    one atomic step of its handler runs ([Server.step_prog]), with any
    store failure.  The interleaving is finer than Node's (Node runs a
    whole callback between two store operations), so every invariant
    proved here holds of Node's schedules too.

    The invariant is stated on the callback programs in flight with
    [Pg.safe]: [safe ids p] says that every response [p] may still write
    has the shape of spec sections 6 and 7, and every case it may still
    insert references a device id in [ids], the ids it has seen in the
    store.  Every handler is safe by the [Proceed] contract. *)

From stdpp Require Import relations.
From S2P Require Import Prelude JsValue Sql Store Pg Normalize Update Case Server Http.
Import JsValue Sql Store Pg Normalize Update Case Server Http.

Module Concurrent.

(** ** The server state *)

Inductive phase :=
| Receiving                            (** reading the body *)
| Running (p : prog) (settled : bool)  (** ['end'] fired: the handler in flight *)
| Closed.                              (** ['aborted'] fired *)

Record conn := mk_conn {
  c_url : string * jsval;   (** [url.parse(req.url, true)]: pathname and query *)
  c_body : string;          (** [received] *)
  c_phase : phase;
  c_calls : list res_call   (** the calls on [res] *)
}.

Record sstate := mk_sstate { s_db : db; s_conns : list conn }.

Definition init_sstate : sstate := mk_sstate empty_db [].

(** What a step of the handler writes: the first settlement of the
    Promise runs the [.then]/[.catch] of lines 38-45; a Promise settles
    once, so later settlements write nothing. *)
Definition settle_step (settled : bool) (ev : event) : bool * list res_call :=
  match ev with
  | EvSettle o => if settled then (true, []) else (true, from_settle (http_response o))
  | _ => (settled, [])
  end.

Section Steps.

Variable json_parse : string → option jsval.

(** The handler the ['end'] handler starts (lines 34-53). *)
Definition start_handler (c : conn) : prog :=
  handle (mk_request (c_url c).1 (c_url c).2 (json_parse (c_body c))).

Implicit Types (i : nat).

Inductive sstep : sstate → sstate → Prop :=
| ss_accept d cs u :
    sstep (mk_sstate d cs) (mk_sstate d (cs ++ [mk_conn u "" Receiving []]))
| ss_data d cs i c chunk :
    cs !! i = Some c → c_phase c = Receiving →
    sstep (mk_sstate d cs)
          (mk_sstate d (<[i := mk_conn (c_url c) (c_body c +:+ chunk) Receiving (c_calls c)]> cs))
| ss_end d cs i c :
    cs !! i = Some c → c_phase c = Receiving →
    sstep (mk_sstate d cs)
          (mk_sstate d (<[i := mk_conn (c_url c) (c_body c)
                                       (Running (start_handler c) false)
                                       (c_calls c)]> cs))
| ss_aborted d cs i c :
    cs !! i = Some c → c_phase c = Receiving →
    sstep (mk_sstate d cs)
          (mk_sstate d (<[i := mk_conn (c_url c) (c_body c) Closed (c_calls c ++ [End])]> cs))
| ss_prog d cs i c p st f fs' d' ev p' :
    cs !! i = Some c → c_phase c = Running p st →
    step_prog [f] d p = Some (fs', d', ev, p') →
    sstep (mk_sstate d cs)
          (mk_sstate d' (<[i := mk_conn (c_url c) (c_body c) (Running p' (settle_step st ev).1)
                                        (c_calls c ++ (settle_step st ev).2)]> cs)).

Definition creachable (s : sstate) : Prop := rtc sstep init_sstate s.

End Steps.

(** ** The invariant *)

Definition calls_ok (calls : list res_call) : Prop :=
  calls = [] ∨ ∃ code obj, calls = respond code obj ∧ response_shape code obj.

Definition conn_inv (d : db) (c : conn) : Prop :=
  match c_phase c with
  | Receiving => c_calls c = []
  | Running p st =>
      (∃ ids, ids ⊆ device_ids d ∧ safe ids p) ∧
      (if st then calls_ok (c_calls c) else c_calls c = [])
  | Closed => c_calls c = [End]
  end.

Definition sinv (s : sstate) : Prop :=
  cases_ref (s_db s) ∧ ∀ c, c ∈ s_conns s → conn_inv (s_db s) c.

(** ** Lemmas *)

Lemma list_insert_elem_inv {A} (l : list A) i x y : y ∈ <[i := x]> l → y = x ∨ y ∈ l.
Proof.
  revert i. induction l as [|z l IH]; intros [|i]; simpl; [set_solver..|].
  rewrite !elem_of_cons. intros [->|Hy]; [by right; left|].
  destruct (IH i Hy); [by left|by right; right].
Qed.

(** What a successful statement shows is in the store after it. *)
Lemma learned_sound q d : learned q (exec q d).2 ⊆ device_ids (exec q d).1.
Proof.
  destruct q as [id| | id ? ? ? ?|]; simpl; [|set_solver| |set_solver].
  - case_bool_decide as Hsel; [|set_solver].
    enough (id ∈ device_ids d) by set_solver.
    eapply select_true_present. rewrite bool_decide_eq_true. exact Hsel.
  - unfold device_ids. simpl. rewrite map_app. set_solver.
Qed.

Lemma device_ids_exec_subseteq q d : device_ids d ⊆ device_ids (exec q d).1.
Proof. intros id. apply device_ids_exec_mono. Qed.

(** A statement the program may issue keeps referential integrity. *)
Lemma cases_ref_exec ids q d :
  cases_ref d → query_ok ids q → ids ⊆ device_ids d → cases_ref (exec q d).1.
Proof.
  intros Hr Hq Hids c Hc. apply device_ids_exec_mono.
  destruct q as [| | |s de id]; simpl in Hc; try by apply Hr.
  apply elem_of_app in Hc as [Hc|Hc]; [by apply Hr|].
  apply list_elem_of_singleton in Hc as ->. simpl. by apply Hids.
Qed.

(** One atomic step of a safe program keeps referential integrity, only
    adds device ids, leaves a safe program, and settles only with a
    response of the documented shape. *)
Lemma safe_step ids d p f fs' d' ev p' :
  safe ids p → ids ⊆ device_ids d → cases_ref d →
  step_prog [f] d p = Some (fs', d', ev, p') →
  cases_ref d' ∧ device_ids d ⊆ device_ids d' ∧
  (∃ ids', ids' ⊆ device_ids d' ∧ safe ids' p') ∧ (∀ o, ev = EvSettle o → settle_ok o).
Proof.
  intros Hsafe Hids Hr Hstep.
  destruct p as [|o k|k|q k|k|err]; simpl in Hsafe, Hstep; try discriminate.
  - injection Hstep as <- <- <- <-. destruct Hsafe. split_and!; eauto; naive_solver.
  - destruct f; injection Hstep as <- <- <- <-; split_and!; eauto; naive_solver.
  - destruct Hsafe as (Hq & Herr & Hok). destruct f as [m|].
    + injection Hstep as <- <- <- <-. split_and!; eauto; naive_solver.
    + destruct (exec q d) as [d1 rows] eqn:Ex. injection Hstep as <- <- <- <-.
      pose proof (learned_sound q d) as Hl. pose proof (device_ids_exec_subseteq q d) as Hm.
      pose proof (cases_ref_exec ids q d Hr Hq Hids) as Hr'. rewrite Ex in Hl, Hm, Hr'.
      simpl in *. split_and!; [done|done| |naive_solver].
      exists (learned q rows ++ ids). split; [set_solver|apply Hok].
  - injection Hstep as <- <- <- <-. split_and!; eauto; naive_solver.
  - injection Hstep as <- <- <- <-. split_and!; eauto; naive_solver.
Qed.

Lemma settle_step_ok (st : bool) (ev : event) (calls : list res_call) :
  (if st then calls_ok calls else calls = []) → (∀ o, ev = EvSettle o → settle_ok o) →
  if (settle_step st ev).1 then calls_ok (calls ++ (settle_step st ev).2)
  else calls ++ (settle_step st ev).2 = [].
Proof.
  intros Hc Hev. destruct ev as [| | |o|]; simpl; rewrite ?app_nil_r; try done.
  destruct st; simpl; rewrite ?app_nil_r; [done|]. subst calls. simpl.
  specialize (Hev o eq_refl). unfold settle_ok in Hev.
  destruct (http_response o) as [[code obj]|]; simpl; [right; eauto|by left].
Qed.

Lemma conn_inv_mono d d' c :
  device_ids d ⊆ device_ids d' → conn_inv d c → conn_inv d' c.
Proof.
  intros Hsub. unfold conn_inv. destruct (c_phase c); [done| |done].
  intros [(ids & Hids & Hs) Hc]. split; [|done]. exists ids. split; [set_solver|done].
Qed.

(** Every step of the server keeps the invariant. *)
Lemma sstep_inv jp s s' : sstep jp s s' → sinv s → sinv s'.
Proof.
  intros Hstep [Hr Hcs]. destruct Hstep as [d cs u|d cs i c chunk Hi Hph|d cs i c Hi Hph
    |d cs i c Hi Hph|d cs i c p st f fs' d' ev p' Hi Hph Hp]; simpl in *.
  - split; [done|]. intros c' Hc'. apply elem_of_app in Hc' as [Hc'|Hc']; [by apply Hcs|].
    apply list_elem_of_singleton in Hc' as ->. done.
  - split; [done|]. intros c' [->|Hc']%list_insert_elem_inv; [|by apply Hcs].
    apply list_elem_of_lookup_2, Hcs in Hi. unfold conn_inv in *. by rewrite Hph in Hi.
  - split; [done|]. intros c' [->|Hc']%list_insert_elem_inv; [|by apply Hcs].
    apply list_elem_of_lookup_2, Hcs in Hi. unfold conn_inv in *. rewrite Hph in Hi.
    simpl. split; [|done]. exists []. split; [set_solver|apply handle_safe].
  - split; [done|]. intros c' [->|Hc']%list_insert_elem_inv; [|by apply Hcs].
    apply list_elem_of_lookup_2, Hcs in Hi. unfold conn_inv in *. rewrite Hph in Hi.
    simpl. by rewrite Hi.
  - apply list_elem_of_lookup_2, Hcs in Hi as Hc. unfold conn_inv in Hc. rewrite Hph in Hc.
    destruct Hc as [(ids & Hids & Hs) Hcalls].
    destruct (safe_step ids d p f fs' d' ev p' Hs Hids Hr Hp) as (Hr' & Hsub & Hs' & Hev).
    split; [done|]. intros c' [->|Hc']%list_insert_elem_inv.
    + split; [done|]. by apply settle_step_ok.
    + by apply (conn_inv_mono d), Hcs.
Qed.

Lemma creachable_inv jp s : creachable jp s → sinv s.
Proof.
  unfold creachable. intros Hreach. revert s Hreach. apply rtc_ind_r.
  - split; [intros c Hc; set_solver|set_solver].
  - intros s1 s2 _ Hstep IH. by apply (sstep_inv jp s1).
Qed.

(** ** Theorems *)

(** C30: referential integrity survives concurrency: in every state the
    server reaches with any number of requests in flight, any interleaving
    of their events and callbacks and any store failures, every case
    references an existing device row.  (Uniqueness of device ids does
    not survive: see [Server.concurrent_inserts_duplicate].) *)
Theorem concurrent_cases_ref jp s : creachable jp s → cases_ref (s_db s).
Proof. intros Hreach. apply (creachable_inv jp s Hreach). Qed.

(** The server after one case request for a new device, handled with no
    store failure: the device is provisioned, the case inserted, and the
    response written. *)
Definition after_case : sstate :=
  mk_sstate (r_db (run [] empty_db (handle case_request)))
    [mk_conn ("/sobjects/Case", JNull) "" (Running PReturn true)
       (respond 200 (done_with_id (JNumber 0)))].

Lemma after_case_reachable : creachable (λ _, Some scenario_case) after_case.
Proof.
  unfold creachable.
  eapply rtc_l; [apply (ss_accept _ empty_db [] ("/sobjects/Case", JNull))|]. simpl.
  eapply rtc_l; [by apply (ss_end _ empty_db _ 0 (mk_conn ("/sobjects/Case", JNull) "" Receiving []))|].
  simpl. do 6 (eapply rtc_l; [eapply (ss_prog _ _ _ 0 _ _ _ None); reflexivity|]; simpl).
  vm_compute. apply rtc_refl.
Qed.

Lemma concurrent_cases_ref_witness :
  cases_ref (s_db after_case).
Proof. apply (concurrent_cases_ref (λ _, Some scenario_case)), after_case_reachable. Defined.

(** C31: in every state the concurrent server reaches, each connection
    has had nothing written, or only [res.end()] (it was aborted), or
    exactly one response: [writeHead(code, JSON headers)], [write(obj)],
    [end()] with a code and an object of the shape of spec sections 6 and
    7.  No response is written twice, none after an abort. *)
Theorem concurrent_responses jp s c :
  creachable jp s → c ∈ s_conns s →
  c_calls c = [] ∨ c_calls c = [End] ∨
  ∃ code obj, c_calls c = [WriteHead code json_headers; Write obj; End] ∧ response_shape code obj.
Proof.
  intros Hreach Hc. apply (creachable_inv jp s Hreach) in Hc. unfold conn_inv in Hc.
  destruct (c_phase c) as [|p st|]; [by left| |by right; left].
  destruct Hc as [_ Hc]. destruct st; [|by left].
  destruct Hc as [Hc|Hc]; [by left|by right; right].
Qed.

Lemma concurrent_responses_witness :
  let c := mk_conn ("/sobjects/Case", JNull) "" (Running PReturn true)
             (respond 200 (done_with_id (JNumber 0))) in
  c_calls c = [] ∨ c_calls c = [End] ∨
  ∃ code obj, c_calls c = [WriteHead code json_headers; Write obj; End] ∧ response_shape code obj.
Proof.
  apply (concurrent_responses (λ _, Some scenario_case) after_case).
  - apply after_case_reachable.
  - simpl. set_solver.
Defined.

End Concurrent.
